(** * MARWIL torch policy: loss, moving average and statistics

    A shallow embedding of [rllib/algorithms/marwil/marwil_torch_policy.py].

    Numbers.  The policy computes on [float32] tensors.  Here every tensor
    entry is a real number: rounding, overflow and the non-finite values are
    not represented.  An operation whose floating-point result would be NaN
    on finite inputs (the mean of an empty tensor, a square root of a
    negative entry) is a fault of the model, like a Python exception.
    The update of the moving average precedes the square root in [loss]:
    the relation [tracked] collects every average the policy stores,
    those included after which the rest of the call computes NaN.  Where a
    property turns on rounding itself (weights whose exponential
    underflows), the module [F32] evaluates the code's expression on IEEE
    binary32 values with the Standard Library's [SpecFloat].

    Tensors.  Only the shapes the policy handles occur: Python floats and
    0-dimensional tensors ([Sc]), 1-dimensional tensors ([Vec]; the moving
    average has shape [1], the per-transition tensors shape [B]) and the
    2-dimensional [log_std] of a Gaussian action distribution ([matrix]).
    Every tensor carries its [requires_grad] flag, which operations combine
    by disjunction and [detach] clears.

    State.  The attributes of [self] that the policy reads and writes form
    the record [MARWILTorchPolicy]; an attribute that has not been set is
    [None].  Methods are computations in a state-and-failure monad. *)

From Stdlib Require Import Reals Lra Lia ZArith SpecFloat.
From stdpp Require Import gmap strings list fin_maps.

Open Scope R_scope.

#[global] Instance R_eq_dec : EqDecision R := Req_dec_T.
#[global] Instance Rlt_decision (x y : R) : Decision (x < y) := Rlt_dec x y.
#[global] Instance Rgt_decision (x y : R) : Decision (x > y) := Rgt_dec x y.

(** ** Tensors *)

Inductive tdata : Type :=
  | Sc (x : R)
  | Vec (xs : list R).

Record tensor : Type := Tensor { data : tdata; requires_grad : bool }.

Record matrix : Type := Matrix { rows : list (list R); mrequires_grad : bool }.

(** A Python float literal or config entry used as an operand. *)
Definition pyfloat (x : R) : tensor := Tensor (Sc x) false.

Definition tvec (xs : list R) (g : bool) : tensor := Tensor (Vec xs) g.

(** The entries of a tensor in order. *)
Definition entries (d : tdata) : list R :=
  match d with
  | Sc x => [x]
  | Vec xs => xs
  end.

(** The per-transition view of an operand broadcast against a batch of
    [n] transitions. *)
Definition expand (n : nat) (d : tdata) : list R :=
  match d with
  | Sc x => replicate n x
  | Vec xs => xs
  end.

Definition same_shape (a b : tdata) : bool :=
  match a, b with
  | Sc _, Sc _ => true
  | Vec xs, Vec ys => bool_decide (length xs = length ys)
  | _, _ => false
  end.

Definition sum_list (xs : list R) : R := foldr Rplus 0 xs.

Definition mean_list (xs : list R) : R := sum_list xs / INR (length xs).

(** Broadcasting of the two operands of an elementwise operation: equal
    lengths pair up, a length of one is stretched, anything else raises. *)
Definition broadcast (f : R → R → R) (a b : tdata) : option tdata :=
  match a, b with
  | Sc x, Sc y => Some (Sc (f x y))
  | Sc x, Vec ys => Some (Vec (map (f x) ys))
  | Vec xs, Sc y => Some (Vec (map (λ x, f x y) xs))
  | Vec xs, Vec ys =>
      if decide (length xs = length ys) then Some (Vec (zip_with f xs ys))
      else match xs, ys with
           | [x], _ => Some (Vec (map (f x) ys))
           | _, [y] => Some (Vec (map (λ x, f x y) xs))
           | _, _ => None
           end
  end.

Definition binop (f : R → R → R) (a b : tensor) : option tensor :=
  d ← broadcast f (data a) (data b);
  Some (Tensor d (requires_grad a || requires_grad b)).

Definition unop (f : R → R) (a : tensor) : tensor :=
  Tensor (match data a with
          | Sc x => Sc (f x)
          | Vec xs => Vec (map f xs)
          end) (requires_grad a).

(** [x ** e] on one entry, for the two exponents the policy uses.  A
    negative base under the exponent [0.5] is NaN. *)
Definition pow_entry (e x : R) : option R :=
  if decide (e = 2) then Some (x * x)
  else if decide (e = 0.5) then
    if decide (x < 0) then None else Some (sqrt x)
  else None.

Module torch.

Definition add : tensor → tensor → option tensor := binop Rplus.
Definition sub : tensor → tensor → option tensor := binop Rminus.
Definition mul : tensor → tensor → option tensor := binop Rmult.
Definition div : tensor → tensor → option tensor := binop Rdiv.

Definition neg : tensor → tensor := unop Ropp.
Definition exp : tensor → tensor := unop Rtrigo_def.exp.

Definition pow (a : tensor) (e : R) : option tensor :=
  d ← match data a with
      | Sc x => Sc <$> pow_entry e x
      | Vec xs => Vec <$> mapM (pow_entry e) xs
      end;
  Some (Tensor d (requires_grad a)).

(** [torch.mean(a)]: a 0-dimensional tensor; NaN on an empty tensor. *)
Definition mean (a : tensor) : option tensor :=
  match data a with
  | Sc x => Some (Tensor (Sc x) (requires_grad a))
  | Vec [] => None
  | Vec xs => Some (Tensor (Sc (mean_list xs)) (requires_grad a))
  end.

(** [torch.mean(a, dim=1)] of a 2-dimensional tensor: one mean per row. *)
Definition mean_dim1 (a : matrix) : option tensor :=
  ms ← mapM (λ r, match r with [] => None | _ => Some (mean_list r) end)
            (rows a);
  Some (Tensor (Vec ms) (mrequires_grad a)).

(** [a.add_(b)]: the sum is stored in [a], whose shape cannot change. *)
Definition add_ (a b : tensor) : option tensor :=
  r ← add a b;
  if same_shape (data r) (data a) then Some r else None.

Definition detach (a : tensor) : tensor := Tensor (data a) false.

End torch.

(** ** Configuration and policy state *)

Record Config : Type := {
  beta : R;
  moving_average_sqd_adv_norm_start : R;
  moving_average_sqd_adv_norm_update_rate : R;
  vf_coeff : R;
  bc_logstd_coeff : R;
}.

Record MARWILTorchPolicy : Type := {
  config : Config;
  _moving_average_sqd_adv_norm : option tensor;
  explained_variance : option tensor;
  v_loss : option tensor;
  p_loss : option tensor;
  total_loss : option tensor;
}.

(** What the collaborators of one [loss] call deliver for the batch:
    [action_dist.logp(actions)], the attribute [action_dist.log_std]
    ([None] for a distribution without one), the batch column
    [train_batch[Postprocessing.ADVANTAGES]] ([None] when the column is
    missing) and [model.value_function()]. *)
Record LossArgs : Type := {
  logp_actions : tensor;
  log_std : option matrix;
  advantages : option tensor;
  value_function : tensor;
}.

(** ** The monad of methods: state of [self], failure for exceptions *)

Definition M (A : Type) : Type :=
  MARWILTorchPolicy → option (A * MARWILTorchPolicy).

#[global] Instance M_ret : MRet M := λ A x self, Some (x, self).
#[global] Instance M_bind : MBind M := λ A B f m self,
  match m self with
  | Some (x, self') => f x self'
  | None => None
  end.

Definition get_self : M MARWILTorchPolicy := λ self, Some (self, self).

(** An operation that may raise. *)
Definition lift {A} (o : option A) : M A := λ self, (λ x, (x, self)) <$> o.

(** Reading an attribute that may not have been set. *)
Definition getattr {A} (f : MARWILTorchPolicy → option A) : M A :=
  λ self, (λ x, (x, self)) <$> f self.

Definition set__moving_average_sqd_adv_norm (t : tensor) : M unit := λ self,
  Some (tt, {| config := config self;
               _moving_average_sqd_adv_norm := Some t;
               explained_variance := explained_variance self;
               v_loss := v_loss self;
               p_loss := p_loss self;
               total_loss := total_loss self |}).

Definition set_explained_variance (t : tensor) : M unit := λ self,
  Some (tt, {| config := config self;
               _moving_average_sqd_adv_norm := _moving_average_sqd_adv_norm self;
               explained_variance := Some t;
               v_loss := v_loss self;
               p_loss := p_loss self;
               total_loss := total_loss self |}).

Definition set_v_loss (t : tensor) : M unit := λ self,
  Some (tt, {| config := config self;
               _moving_average_sqd_adv_norm := _moving_average_sqd_adv_norm self;
               explained_variance := explained_variance self;
               v_loss := Some t;
               p_loss := p_loss self;
               total_loss := total_loss self |}).

Definition set_p_loss (t : tensor) : M unit := λ self,
  Some (tt, {| config := config self;
               _moving_average_sqd_adv_norm := _moving_average_sqd_adv_norm self;
               explained_variance := explained_variance self;
               v_loss := v_loss self;
               p_loss := Some t;
               total_loss := total_loss self |}).

Definition set_total_loss (t : tensor) : M unit := λ self,
  Some (tt, {| config := config self;
               _moving_average_sqd_adv_norm := _moving_average_sqd_adv_norm self;
               explained_variance := explained_variance self;
               v_loss := v_loss self;
               p_loss := p_loss self;
               total_loss := Some t |}).

(** The same policy under another [bc_logstd_coeff]. *)
Definition with_bc_logstd_coeff (c : R) (self : MARWILTorchPolicy)
  : MARWILTorchPolicy :=
  {| config := {| beta := beta (config self);
                  moving_average_sqd_adv_norm_start :=
                    moving_average_sqd_adv_norm_start (config self);
                  moving_average_sqd_adv_norm_update_rate :=
                    moving_average_sqd_adv_norm_update_rate (config self);
                  vf_coeff := vf_coeff (config self);
                  bc_logstd_coeff := c |};
     _moving_average_sqd_adv_norm := _moving_average_sqd_adv_norm self;
     explained_variance := explained_variance self;
     v_loss := v_loss self;
     p_loss := p_loss self;
     total_loss := total_loss self |}.

Definition with_log_std (ls : option matrix) (args : LossArgs) : LossArgs :=
  {| logp_actions := logp_actions args;
     log_std := ls;
     advantages := advantages args;
     value_function := value_function args |}.

(** Modelled from the spec: [ray.rllib.utils.numpy.convert_to_numpy] is not
    among the sources; the stats are "plain (non-differentiable) numeric
    snapshots", so each tensor of the mapping is replaced by its data. *)
Definition convert_to_numpy (stats : gmap string tensor) : gmap string tdata :=
  data <$> stats.

Section Policy.

(** [ray.rllib.utils.torch_utils.explained_variance(y, pred)], a
    diagnostic that is not among the sources: any function of the two
    tensors to a 0-dimensional value. *)
Variable torch_utils_explained_variance : tdata → tdata → R.

Definition explained_variance_of (y pred : tensor) : tensor :=
  Tensor (Sc (torch_utils_explained_variance (data y) (data pred)))
         (requires_grad y || requires_grad pred).

(** [loss], the branch on [beta] (advantage estimation): sets
    [self.v_loss] and, for [beta != 0], [self.explained_variance] and the
    moving average; the result is the local [exp_advs]. *)
Definition advantage_estimation (train_batch : LossArgs) : M tensor :=
  self ← get_self;
  if decide (beta (config self) ≠ 0) then
    cumulative_rewards ← lift (advantages train_batch);
    let state_values := value_function train_batch in
    adv ← lift (torch.sub cumulative_rewards state_values);
    adv_squared ← lift (torch.pow adv 2);
    adv_squared_mean ← lift (torch.mean adv_squared);
    let explained_var := explained_variance_of cumulative_rewards state_values in
    explained_var_mean ← lift (torch.mean explained_var);
    _ ← set_explained_variance explained_var_mean;
    let rate := pyfloat (moving_average_sqd_adv_norm_update_rate (config self)) in
    old ← getattr _moving_average_sqd_adv_norm;
    diff ← lift (torch.sub adv_squared_mean old);
    step ← lift (torch.mul rate diff);
    updated ← lift (torch.add_ old step);
    _ ← set__moving_average_sqd_adv_norm updated;
    norm ← getattr _moving_average_sqd_adv_norm;
    root ← lift (torch.pow norm 0.5);
    denom ← lift (torch.add (pyfloat 1e-8) root);
    ratio ← lift (torch.div adv denom);
    scaled ← lift (torch.mul (pyfloat (beta (config self))) ratio);
    let exp_advs := torch.detach (torch.exp scaled) in
    v ← lift (torch.mul (pyfloat 0.5) adv_squared_mean);
    _ ← set_v_loss v;
    mret exp_advs
  else
    let exp_advs := pyfloat 1 in
    _ ← set_v_loss (pyfloat 0);
    mret exp_advs.

(** [loss], the local [logstds]. *)
Definition logstd_term (train_batch : LossArgs) : M tensor :=
  self ← get_self;
  let logstd_coeff := bc_logstd_coeff (config self) in
  if decide (logstd_coeff > 0) then
    dist_log_std ← lift (log_std train_batch);
    lift (torch.mean_dim1 dist_log_std)
  else
    mret (pyfloat 0).

Definition loss (train_batch : LossArgs) : M tensor :=
  let logprobs := logp_actions train_batch in
  exp_advs ← advantage_estimation train_batch;
  logstds ← logstd_term train_batch;
  self ← get_self;
  let logstd_coeff := pyfloat (bc_logstd_coeff (config self)) in
  scaled_logstds ← lift (torch.mul logstd_coeff logstds);
  inner ← lift (torch.add logprobs scaled_logstds);
  weighted ← lift (torch.mul exp_advs inner);
  weighted_mean ← lift (torch.mean weighted);
  _ ← set_p_loss (torch.neg weighted_mean);
  p ← getattr p_loss;
  v ← getattr v_loss;
  scaled_v ← lift (torch.mul (pyfloat (vf_coeff (config self))) v);
  total ← lift (torch.add p scaled_v);
  _ ← set_total_loss total;
  getattr total_loss.

Definition stats_fn : M (gmap string tdata) :=
  self ← get_self;
  p ← getattr p_loss;
  total ← getattr total_loss;
  let stats : gmap string tensor :=
    <["total_loss" := total]> (<["policy_loss" := p]> ∅) in
  stats ← (if decide (beta (config self) ≠ 0) then
             norm ← getattr _moving_average_sqd_adv_norm;
             ev ← getattr explained_variance;
             v ← getattr v_loss;
             mret (<["vf_loss" := v]>
                    (<["vf_explained_var" := ev]>
                      (<["moving_average_sqd_adv_norm" := norm]> stats)))
           else mret stats);
  mret (convert_to_numpy stats).

(** Modelled from the spec: [TorchPolicyV2._initialize_loss_from_dummy_batch]
    is not among the sources; it is the "one mandatory initialization
    invocation performed once at policy construction against a dummy
    batch", that is one call of [loss] followed by one of [stats_fn]. *)
Definition _initialize_loss_from_dummy_batch (dummy_batch : LossArgs) : M unit :=
  _ ← loss dummy_batch;
  _ ← stats_fn;
  mret tt.

(** [__init__]: the attributes the constructor of this class sets, then
    the initialization call.  The framework's constructors only store
    the config here. *)
Definition __init__ (cfg : Config) (dummy_batch : LossArgs)
  : option MARWILTorchPolicy :=
  let self := {| config := cfg;
                 _moving_average_sqd_adv_norm :=
                   if decide (beta cfg ≠ 0)
                   then Some (tvec [moving_average_sqd_adv_norm_start cfg] false)
                   else None;
                 explained_variance := None;
                 v_loss := None;
                 p_loss := None;
                 total_loss := None |} in
  snd <$> _initialize_loss_from_dummy_batch dummy_batch self.

(** The states a policy built from [cfg] passes through: construction,
    then any number of [loss] calls that return. *)
Inductive reachable (cfg : Config) : MARWILTorchPolicy → Prop :=
  | reachable_init dummy_batch self :
      __init__ cfg dummy_batch = Some self →
      reachable cfg self
  | reachable_loss train_batch self result self' :
      reachable cfg self →
      loss train_batch self = Some (result, self') →
      reachable cfg self'.

End Policy.

(** ** Reference formulas

    The quantities of the specification in its own words, over the
    per-transition lists of a batch.  The theorems below compare the code
    with them. *)

Definition square (x : R) : R := x * x.

(** [advantage[i] = batch.advantage[i] - value_estimate[i]]. *)
Definition residual_spec (batch_advantage value_estimate : list R) : list R :=
  zip_with Rminus batch_advantage value_estimate.

(** [mean(advantage^2)] over the batch. *)
Definition adv_sq_mean_spec (batch_advantage value_estimate : list R) : R :=
  mean_list (map square (residual_spec batch_advantage value_estimate)).

(** [old_avg + update_rate * (mean(advantage^2) - old_avg)]. *)
Definition moving_avg_spec (update_rate old_avg adv_sq_mean : R) : R :=
  old_avg + update_rate * (adv_sq_mean - old_avg).

(** [exp(beta * advantage[i] / sqrt(1e-8 + moving_avg))], the weighting as
    the specification writes it: the epsilon under the square root. *)
Definition exp_adv_spec (b moving_avg advantage : R) : R :=
  exp (b * advantage / sqrt (1e-8 + moving_avg)).

(** The weighting with the epsilon added to the square root. *)
Definition exp_adv_outside (b moving_avg advantage : R) : R :=
  exp (b * (advantage / (1e-8 + sqrt moving_avg))).

(** [logstd[i]]: the mean over the action dimensions when the coefficient
    is positive, otherwise 0 for every transition. *)
Definition logstd_spec (coeff : R) (n : nat) (dist_log_std : list (list R))
  : list R :=
  if decide (coeff > 0) then map mean_list dist_log_std else replicate n 0.

(** [-mean(exp_advs[i] * (logprobs[i] + bc_logstd_coeff * logstd[i]))]. *)
Definition policy_loss_spec (coeff : R) (exp_advs logprobs logstd : list R) : R :=
  - mean_list (zip_with Rmult exp_advs
                 (zip_with (λ l s, l + coeff * s) logprobs logstd)).

(** The five stats keys of the advantage-weighted mode and the two of
    behavioural cloning. *)
Definition stats_keys (b : R) : gset string :=
  if decide (b ≠ 0)
  then {[ "policy_loss"; "total_loss"; "moving_average_sqd_adv_norm";
          "vf_explained_var"; "vf_loss" ]}
  else {[ "policy_loss"; "total_loss" ]}.

(** A batch whose tensors are aligned by index: [logprobs] is a non-empty
    1-dimensional tensor; when [beta != 0] the advantages column and the
    value estimates are present with one entry per transition; when
    [bc_logstd_coeff > 0] the distribution has a [log_std] with one
    non-empty row per transition. *)
Record aligned (cfg : Config) (train_batch : LossArgs)
    (logprobs cumulative_rewards state_values : list R)
    (dist_log_std : list (list R)) : Prop := {
  aligned_logp : data (logp_actions train_batch) = Vec logprobs;
  aligned_nonempty : logprobs ≠ [];
  aligned_adv :
    beta cfg ≠ 0 →
    ∃ t, advantages train_batch = Some t
         ∧ data t = Vec cumulative_rewards
         ∧ data (value_function train_batch) = Vec state_values
         ∧ length cumulative_rewards = length logprobs
         ∧ length state_values = length logprobs;
  aligned_logstd :
    bc_logstd_coeff cfg > 0 →
    ∃ t, log_std train_batch = Some t
         ∧ rows t = dist_log_std
         ∧ length dist_log_std = length logprobs
         ∧ Forall (λ r, r ≠ []) dist_log_std;
}.

(** The moving average of a policy is the shape-[1] tensor holding [m]. *)
Definition norm_is (self : MARWILTorchPolicy) (m : R) : Prop :=
  ∃ g, _moving_average_sqd_adv_norm self = Some (tvec [m] g).

(** The invariant of the moving average: when the attribute exists it is
    a shape-[1] tensor with a non-negative entry, and it exists unless the
    policy is in behavioural cloning. *)
Definition norm_ok (self : MARWILTorchPolicy) : Prop :=
  match _moving_average_sqd_adv_norm self with
  | Some t => ∃ m g, t = tvec [m] g ∧ 0 <= m
  | None => beta (config self) = 0
  end.

(** The observable outcome of a [loss] call: the returned loss and the two
    losses it stores. *)
Definition loss_outcome (r : option (tensor * MARWILTorchPolicy))
  : option (tensor * option tensor * option tensor) :=
  (λ '(result, self'), (result, p_loss self', total_loss self')) <$> r.

(** Modelled from the spec: [explained_variance] of
    [ray.rllib.utils.torch_utils] is not among the sources; the "standard
    formula: 1 - Var(target - prediction)/Var(target)".  It instantiates
    the diagnostic in the scenarios below. *)
Definition variance (xs : list R) : R :=
  mean_list (map (λ x, square (x - mean_list xs)) xs).

Definition explained_variance_spec (y pred : tdata) : R :=
  1 - variance (zip_with Rminus (entries y) (entries pred))
      / variance (entries y).

(** ** Scenarios *)

Definition fresh (cfg : Config) (norm : option tensor) : MARWILTorchPolicy :=
  {| config := cfg;
     _moving_average_sqd_adv_norm := norm;
     explained_variance := None;
     v_loss := None;
     p_loss := None;
     total_loss := None |}.

(** Two transitions, [beta = 1], moving average 1, update rate 0.1,
    advantage targets [2, 4], value estimates [1, 1]. *)
Definition weighted_config : Config :=
  {| beta := 1;
     moving_average_sqd_adv_norm_start := 1;
     moving_average_sqd_adv_norm_update_rate := 0.1;
     vf_coeff := 1;
     bc_logstd_coeff := 0 |}.

Definition weighted_policy : MARWILTorchPolicy :=
  fresh weighted_config (Some (tvec [1] false)).

Definition weighted_batch : LossArgs :=
  {| logp_actions := tvec [-1; -2] true;
     log_std := None;
     advantages := Some (tvec [2; 4] false);
     value_function := tvec [1; 1] true |}.

(** Four transitions, [beta = 0], log-probabilities [-1, -2, -0.5, -3]. *)
Definition bc_config : Config :=
  {| beta := 0;
     moving_average_sqd_adv_norm_start := 100;
     moving_average_sqd_adv_norm_update_rate := 0.1;
     vf_coeff := 1;
     bc_logstd_coeff := 0 |}.

Definition bc_policy : MARWILTorchPolicy := fresh bc_config None.

Definition bc_batch : LossArgs :=
  {| logp_actions := tvec [-1; -2; -0.5; -3] true;
     log_std := None;
     advantages := None;
     value_function := tvec [0; 0; 0; 0] true |}.

(** One transition with a small squared-advantage norm: the moving average
    is [1e-4], the residual [1e-2], so the average stays where it is. *)
Definition small_norm_config : Config :=
  {| beta := 1;
     moving_average_sqd_adv_norm_start := 1e-4;
     moving_average_sqd_adv_norm_update_rate := 0.5;
     vf_coeff := 1;
     bc_logstd_coeff := 0 |}.

Definition small_norm_policy : MARWILTorchPolicy :=
  fresh small_norm_config (Some (tvec [1e-4] false)).

Definition small_norm_batch : LossArgs :=
  {| logp_actions := tvec [-1] true;
     log_std := None;
     advantages := Some (tvec [1e-2] false);
     value_function := tvec [0] true |}.

(** One transition whose squared residual equals the moving average. *)
Definition settled_config : Config :=
  {| beta := 1;
     moving_average_sqd_adv_norm_start := 1;
     moving_average_sqd_adv_norm_update_rate := 0.5;
     vf_coeff := 1;
     bc_logstd_coeff := 0 |}.

Definition settled_policy : MARWILTorchPolicy :=
  fresh settled_config (Some (tvec [1] false)).

Definition settled_batch : LossArgs :=
  {| logp_actions := tvec [-1] true;
     log_std := None;
     advantages := Some (tvec [1] false);
     value_function := tvec [0] true |}.

(** One transition whose value estimate equals its advantage target. *)
Definition exact_value_batch : LossArgs :=
  {| logp_actions := tvec [-1] true;
     log_std := None;
     advantages := Some (tvec [1] false);
     value_function := tvec [1] true |}.

(** A negative [bc_logstd_coeff] on a Gaussian distribution. *)
Definition negative_coeff_config : Config :=
  {| beta := 0;
     moving_average_sqd_adv_norm_start := 100;
     moving_average_sqd_adv_norm_update_rate := 0.1;
     vf_coeff := 1;
     bc_logstd_coeff := -1 |}.

Definition negative_coeff_policy : MARWILTorchPolicy :=
  fresh negative_coeff_config None.

Definition gaussian_batch : LossArgs :=
  {| logp_actions := tvec [-1; -2] true;
     log_std := Some (Matrix [[0.5; 1.5]; [2; 4]] true);
     advantages := None;
     value_function := tvec [0; 0] true |}.

(** ** The training loop

    The caller of [loss]: one call per minibatch, in the order given; an
    exception in a call ends the run. *)
Fixpoint train (torch_utils_explained_variance : tdata → tdata → R)
    (batches : list LossArgs) (self : MARWILTorchPolicy)
  : option MARWILTorchPolicy :=
  match batches with
  | [] => Some self
  | train_batch :: rest =>
      match loss torch_utils_explained_variance train_batch self with
      | Some (_, self') => train torch_utils_explained_variance rest self'
      | None => None
      end
  end.

(** The [requires_grad] flag of the [log_std] the loss reads: that of the
    distribution when [bc_logstd_coeff > 0], none otherwise. *)
Definition logstd_requires_grad (cfg : Config) (train_batch : LossArgs) : bool :=
  if decide (bc_logstd_coeff cfg > 0)
  then from_option mrequires_grad false (log_std train_batch)
  else false.

(** Further scenarios. *)

(** The behavioural-cloning batch with an advantages column and other
    value estimates. *)
Definition bc_batch_with_advantages : LossArgs :=
  {| logp_actions := tvec [-1; -2; -0.5; -3] true;
     log_std := None;
     advantages := Some (tvec [5; 6; 7; 8] false);
     value_function := tvec [1; 2; 3; 4] true |}.

(** The two-transition batch without its advantages column. *)
Definition batch_without_advantages : LossArgs :=
  {| logp_actions := tvec [-1; -2] true;
     log_std := None;
     advantages := None;
     value_function := tvec [1; 1] true |}.

(** Three advantage targets against two value estimates. *)
Definition misaligned_batch : LossArgs :=
  {| logp_actions := tvec [-1; -2; -3] true;
     log_std := None;
     advantages := Some (tvec [2; 4; 6] false);
     value_function := tvec [1; 1] true |}.

(** A positive [bc_logstd_coeff] in behavioural cloning. *)
Definition logstd_config : Config :=
  {| beta := 0;
     moving_average_sqd_adv_norm_start := 100;
     moving_average_sqd_adv_norm_update_rate := 0.1;
     vf_coeff := 1;
     bc_logstd_coeff := 0.5 |}.

Definition logstd_policy : MARWILTorchPolicy := fresh logstd_config None.

(** ** The moving average apart from the weights

    In the model a square root of a negative average is a fault, and a
    faulting [loss] call leaves no state.  The code has no such fault:
    there the root is NaN, the call goes on to its end, and the average it
    has stored stays.  To speak of every average the code can store, the
    branch on [beta] is taken in its two parts, the update (lines 65-79)
    and the weights (lines 80-91). *)

(** [__init__], lines 40-46: the moving average the constructor sets up. *)
Definition allocated_norm (cfg : Config) : option tensor :=
  if decide (beta cfg ≠ 0)
  then Some (tvec [moving_average_sqd_adv_norm_start cfg] false)
  else None.

Section Update.

Variable torch_utils_explained_variance : tdata → tdata → R.

(** [loss], lines 65-79: the branch on [beta] up to the in-place update.
    The result holds the locals [adv] and [adv_squared_mean] for the rest
    of the branch; it is [None] in behavioural cloning, where the branch
    does none of this. *)
Definition moving_average_update (train_batch : LossArgs)
  : M (option (tensor * tensor)) :=
  self ← get_self;
  if decide (beta (config self) ≠ 0) then
    cumulative_rewards ← lift (advantages train_batch);
    let state_values := value_function train_batch in
    adv ← lift (torch.sub cumulative_rewards state_values);
    adv_squared ← lift (torch.pow adv 2);
    adv_squared_mean ← lift (torch.mean adv_squared);
    let explained_var :=
      explained_variance_of torch_utils_explained_variance
        cumulative_rewards state_values in
    explained_var_mean ← lift (torch.mean explained_var);
    _ ← set_explained_variance explained_var_mean;
    let rate := pyfloat (moving_average_sqd_adv_norm_update_rate (config self)) in
    old ← getattr _moving_average_sqd_adv_norm;
    diff ← lift (torch.sub adv_squared_mean old);
    step ← lift (torch.mul rate diff);
    updated ← lift (torch.add_ old step);
    _ ← set__moving_average_sqd_adv_norm updated;
    mret (Some (adv, adv_squared_mean))
  else
    mret None.

(** [loss], lines 80-91: the rest of the branch, from the locals. *)
Definition weights_after_update (locals : option (tensor * tensor)) : M tensor :=
  match locals with
  | Some (adv, adv_squared_mean) =>
      self ← get_self;
      norm ← getattr _moving_average_sqd_adv_norm;
      root ← lift (torch.pow norm 0.5);
      denom ← lift (torch.add (pyfloat 1e-8) root);
      ratio ← lift (torch.div adv denom);
      scaled ← lift (torch.mul (pyfloat (beta (config self))) ratio);
      let exp_advs := torch.detach (torch.exp scaled) in
      v ← lift (torch.mul (pyfloat 0.5) adv_squared_mean);
      _ ← set_v_loss v;
      mret exp_advs
  | None =>
      let exp_advs := pyfloat 1 in
      _ ← set_v_loss (pyfloat 0);
      mret exp_advs
  end.

(** The policies a run passes through, as far as the moving average goes:
    the one the constructor sets up, then any number of updates, each
    followed by any change of the other attributes (the rest of a [loss]
    call changes nothing else, and in the code it does so also when the
    weights come out as NaN). *)
Inductive tracked (cfg : Config) : MARWILTorchPolicy → Prop :=
  | tracked_allocation self :
      config self = cfg →
      _moving_average_sqd_adv_norm self = allocated_norm cfg →
      tracked cfg self
  | tracked_update train_batch self locals updated self' :
      tracked cfg self →
      moving_average_update train_batch self = Some (locals, updated) →
      config self' = cfg →
      _moving_average_sqd_adv_norm self' = _moving_average_sqd_adv_norm updated →
      tracked cfg self'.

End Update.

(** An update rate of 2, outside (0,1]. *)
Definition overshooting_config : Config :=
  {| beta := 1;
     moving_average_sqd_adv_norm_start := 1;
     moving_average_sqd_adv_norm_update_rate := 2;
     vf_coeff := 1;
     bc_logstd_coeff := 0 |}.

Definition overshooting_policy : MARWILTorchPolicy :=
  fresh overshooting_config (Some (tvec [1] false)).

(** ** The weights in float32

    Where a property of the weights depends on rounding, the weights of
    lines 81-84 are evaluated in IEEE 754 binary32 (24 bits of precision),
    with the operations of the standard library's [SpecFloat], which round
    to nearest, ties to even. *)
Module F32.

Definition prec : Z := 24.
Definition emax : Z := 128.

Definition of_Z (z : Z) : spec_float := binary_normalize prec emax z 0 false.

(** A Python float (binary64) cast to the dtype of the tensor it meets. *)
Definition of_double (x : spec_float) : spec_float :=
  match x with
  | S754_finite s m e => binary_normalize prec emax (cond_Zopp s (Zpos m)) e s
  | _ => x
  end.

Definition add : spec_float → spec_float → spec_float := SFadd prec emax.
Definition mul : spec_float → spec_float → spec_float := SFmul prec emax.
Definition div : spec_float → spec_float → spec_float := SFdiv prec emax.
Definition sqrt : spec_float → spec_float := SFsqrt prec emax.
Definition ltb : spec_float → spec_float → bool := SFltb.

(** The literal [1e-8]: the binary64 nearest to 10^-8, cast. *)
Definition eps : spec_float :=
  of_double (SFdiv 53 1024 (binary_normalize 53 1024 1 0 false)
                           (binary_normalize 53 1024 100000000 0 false)).

(** [torch.exp] on one entry, where the result does not depend on how the
    kernel rounds: below -104 the exponential is under 2^-150, half the
    least positive float32, and the result is [+0.0]; above 89 it exceeds
    the largest float32 and the result is [+inf]; [exp(±0) = 1]; NaN and
    the infinities are as in IEEE 754.  In between the model gives no
    result. *)
Definition exp (x : spec_float) : option spec_float :=
  match x with
  | S754_nan => Some S754_nan
  | S754_infinity true => Some (S754_zero false)
  | S754_infinity false => Some (S754_infinity false)
  | S754_zero _ => Some (of_Z 1)
  | S754_finite _ _ _ =>
      if ltb x (of_Z (-104)) then Some (S754_zero false)
      else if ltb (of_Z 89) x then Some (S754_infinity false)
      else None
  end.

(** Lines 81-84 on a float32 batch: [torch.pow(norm, 0.5)] is the square
    root, [beta] and [1e-8] are cast to float32, every operation rounds. *)
Definition exp_advs (beta norm : spec_float) (adv : list spec_float)
  : option (list spec_float) :=
  mapM (λ a, exp (mul beta (div a (add eps (sqrt norm))))) adv.

End F32.

(** ** Facts about the tensor operations *)

Section TensorFacts.

Lemma pow_entry_square x : pow_entry 2 x = Some (x * x).
Proof. unfold pow_entry. by rewrite decide_True. Qed.

Lemma pow_entry_root x : 0 <= x → pow_entry 0.5 x = Some (sqrt x).
Proof.
  intros Hx. unfold pow_entry.
  rewrite decide_False by lra.
  rewrite decide_True by done.
  rewrite decide_False by lra. done.
Qed.

Lemma pow_entry_root_neg x : x < 0 → pow_entry 0.5 x = None.
Proof.
  intros Hx. unfold pow_entry.
  rewrite decide_False by lra.
  rewrite decide_True by done.
  by rewrite decide_True.
Qed.

Lemma mapM_pow_square xs :
  mapM (pow_entry 2) xs = Some (map square xs).
Proof.
  induction xs as [|x xs IH]; [done|].
  cbn. rewrite pow_entry_square. cbn. rewrite IH. done.
Qed.

Lemma broadcast_same f xs ys :
  length xs = length ys →
  broadcast f (Vec xs) (Vec ys) = Some (Vec (zip_with f xs ys)).
Proof. intros H. cbn. by rewrite decide_True. Qed.

Lemma broadcast_single_r f xs y :
  broadcast f (Vec xs) (Vec [y]) = Some (Vec (map (λ x, f x y) xs)).
Proof.
  cbn. destruct xs as [|x [|x' xs]]; cbn.
  - by rewrite decide_False.
  - by rewrite decide_True.
  - by rewrite decide_False.
Qed.

Lemma zip_with_replicate_l {A B C} (f : A → B → C) x ys :
  zip_with f (replicate (length ys) x) ys = map (f x) ys.
Proof. induction ys as [|y ys IH]; cbn; [done|by rewrite IH]. Qed.

Lemma zip_with_replicate_r {A B C} (f : A → B → C) xs y :
  zip_with f xs (replicate (length xs) y) = map (λ x, f x y) xs.
Proof. induction xs as [|x xs IH]; cbn; [done|by rewrite IH]. Qed.

(** Broadcasting against a batch is the elementwise operation on the
    per-transition views. *)
Lemma broadcast_expand f a b n :
  length (expand n a) = n → length (expand n b) = n →
  (∃ xs, a = Vec xs) ∨ (∃ ys, b = Vec ys) →
  broadcast f a b = Some (Vec (zip_with f (expand n a) (expand n b))).
Proof.
  intros Ha Hb Hv. destruct a as [x|xs], b as [y|ys]; cbn in *.
  - destruct Hv as [[? ?]|[? ?]]; done.
  - subst n. by rewrite zip_with_replicate_l.
  - subst n. by rewrite zip_with_replicate_r.
  - rewrite decide_True by congruence. done.
Qed.

Lemma torch_mean_vec xs g :
  xs ≠ [] →
  torch.mean (tvec xs g) = Some (Tensor (Sc (mean_list xs)) g).
Proof. intros H. destruct xs; done. Qed.

Lemma sum_list_nonneg xs : Forall (λ x, 0 <= x) xs → 0 <= sum_list xs.
Proof.
  induction 1 as [|x xs Hx _ IH]; cbn; [lra|].
  unfold sum_list in IH. lra.
Qed.

Lemma mean_list_nonneg xs : Forall (λ x, 0 <= x) xs → 0 <= mean_list xs.
Proof.
  intros H. unfold mean_list.
  destruct xs as [|x xs].
  - cbn. rewrite Rdiv_0_l. lra.
  - apply Rmult_le_pos; [by apply sum_list_nonneg|].
    apply Rlt_le, Rinv_0_lt_compat, lt_0_INR. cbn. lia.
Qed.

Lemma squares_nonneg xs : Forall (λ x, 0 <= x) (map square xs).
Proof. apply Forall_map, Forall_forall. intros x _. unfold square. cbn. nra. Qed.

Lemma mean_squares_nonneg xs : 0 <= mean_list (map square xs).
Proof. apply mean_list_nonneg, squares_nonneg. Qed.

End TensorFacts.

(** ** Facts about the monad *)

Section MonadFacts.

Context {A B : Type}.

Lemma bind_lift (o : option A) (k : A → M B) self :
  (lift o ≫= k) self = match o with Some x => k x self | None => None end.
Proof. by destruct o. Qed.

Lemma bind_getattr (f : MARWILTorchPolicy → option A) (k : A → M B) self :
  (getattr f ≫= k) self
  = match f self with Some x => k x self | None => None end.
Proof. unfold mbind, M_bind, getattr. by destruct (f self). Qed.

Lemma bind_get_self (k : MARWILTorchPolicy → M B) self :
  (get_self ≫= k) self = k self self.
Proof. done. Qed.

Lemma bind_ret (x : A) (k : A → M B) self : (mret x ≫= k) self = k x self.
Proof. done. Qed.

Lemma bind_run (m : M A) (k : A → M B) self x self' :
  m self = Some (x, self') → (m ≫= k) self = k x self'.
Proof. intros H. unfold mbind, M_bind. by rewrite H. Qed.

(** A computation that returns went through each of its steps. *)
Lemma bind_Some (m : M A) (k : A → M B) self r :
  (m ≫= k) self = Some r →
  ∃ x self', m self = Some (x, self') ∧ k x self' = Some r.
Proof.
  unfold mbind, M_bind. destruct (m self) as [[x self']|]; [|done].
  intros H. by exists x, self'.
Qed.

Lemma lift_Some (o : option A) self x self' :
  lift o self = Some (x, self') → o = Some x ∧ self' = self.
Proof. unfold lift. destruct o; cbn; [|done]. by intros [= -> ->]. Qed.

Lemma getattr_Some (f : MARWILTorchPolicy → option A) self x self' :
  getattr f self = Some (x, self') → f self = Some x ∧ self' = self.
Proof. unfold getattr. destruct (f self); cbn; [|done]. by intros [= -> ->]. Qed.

Lemma bind_set_explained_variance t (k : () → M B) self :
  (set_explained_variance t ≫= k) self
  = k () {| config := config self;
            _moving_average_sqd_adv_norm := _moving_average_sqd_adv_norm self;
            explained_variance := Some t;
            v_loss := v_loss self;
            p_loss := p_loss self;
            total_loss := total_loss self |}.
Proof. done. Qed.

Lemma bind_set__moving_average_sqd_adv_norm t (k : () → M B) self :
  (set__moving_average_sqd_adv_norm t ≫= k) self
  = k () {| config := config self;
            _moving_average_sqd_adv_norm := Some t;
            explained_variance := explained_variance self;
            v_loss := v_loss self;
            p_loss := p_loss self;
            total_loss := total_loss self |}.
Proof. done. Qed.

Lemma bind_set_v_loss t (k : () → M B) self :
  (set_v_loss t ≫= k) self
  = k () {| config := config self;
            _moving_average_sqd_adv_norm := _moving_average_sqd_adv_norm self;
            explained_variance := explained_variance self;
            v_loss := Some t;
            p_loss := p_loss self;
            total_loss := total_loss self |}.
Proof. done. Qed.

Lemma bind_set_p_loss t (k : () → M B) self :
  (set_p_loss t ≫= k) self
  = k () {| config := config self;
            _moving_average_sqd_adv_norm := _moving_average_sqd_adv_norm self;
            explained_variance := explained_variance self;
            v_loss := v_loss self;
            p_loss := Some t;
            total_loss := total_loss self |}.
Proof. done. Qed.

Lemma bind_set_total_loss t (k : () → M B) self :
  (set_total_loss t ≫= k) self
  = k () {| config := config self;
            _moving_average_sqd_adv_norm := _moving_average_sqd_adv_norm self;
            explained_variance := explained_variance self;
            v_loss := v_loss self;
            p_loss := p_loss self;
            total_loss := Some t |}.
Proof. done. Qed.

End MonadFacts.

(** ** Operations on the shapes of a batch *)

Section ShapeFacts.

Lemma binop_same f xs g ys h :
  length xs = length ys →
  binop f (tvec xs g) (tvec ys h) = Some (tvec (zip_with f xs ys) (g || h)).
Proof. intros H. unfold binop. cbn [data tvec]. by rewrite broadcast_same. Qed.

Lemma binop_sc_vec f x g ys h :
  binop f (Tensor (Sc x) g) (tvec ys h) = Some (tvec (map (f x) ys) (g || h)).
Proof. done. Qed.

Lemma binop_sc_sc f x g y h :
  binop f (Tensor (Sc x) g) (Tensor (Sc y) h)
  = Some (Tensor (Sc (f x y)) (g || h)).
Proof. done. Qed.

Lemma binop_vec_single f xs g y h :
  binop f (tvec xs g) (tvec [y] h)
  = Some (tvec (map (λ x, f x y) xs) (g || h)).
Proof. unfold binop. cbn [data tvec]. by rewrite broadcast_single_r. Qed.

Lemma binop_expand f a b n :
  length (expand n (data a)) = n → length (expand n (data b)) = n →
  (∃ xs, data a = Vec xs) ∨ (∃ ys, data b = Vec ys) →
  binop f a b
  = Some (tvec (zip_with f (expand n (data a)) (expand n (data b)))
               (requires_grad a || requires_grad b)).
Proof.
  intros Ha Hb Hv. unfold binop.
  by rewrite (broadcast_expand f _ _ n Ha Hb Hv).
Qed.

Lemma torch_mul_pyfloat x y :
  torch.mul (pyfloat x) (pyfloat y) = Some (pyfloat (x * y)).
Proof. done. Qed.

Lemma torch_pow_square xs g :
  torch.pow (tvec xs g) 2 = Some (tvec (map square xs) g).
Proof. unfold torch.pow. cbn [data tvec]. by rewrite mapM_pow_square. Qed.

Lemma torch_pow_root x g :
  0 <= x → torch.pow (tvec [x] g) 0.5 = Some (tvec [sqrt x] g).
Proof.
  intros H. unfold torch.pow. cbn [data tvec mapM].
  by rewrite pow_entry_root.
Qed.

Lemma torch_pow_root_neg x g : x < 0 → torch.pow (tvec [x] g) 0.5 = None.
Proof.
  intros H. unfold torch.pow. cbn [data tvec mapM].
  by rewrite pow_entry_root_neg.
Qed.

Lemma torch_add__single x g y h :
  torch.add_ (tvec [x] g) (tvec [y] h) = Some (tvec [x + y] (g || h)).
Proof. done. Qed.

Lemma torch_mean_dim1_rows rs g :
  Forall (λ r, r ≠ []) rs →
  torch.mean_dim1 (Matrix rs g) = Some (tvec (map mean_list rs) g).
Proof.
  intros H. unfold torch.mean_dim1. cbn [rows mrequires_grad].
  assert (mapM (λ r : list R, match r with
                              | [] => None
                              | _ => Some (mean_list r)
                              end) rs = Some (map mean_list rs)) as ->; [|done].
  induction H as [|r rs Hr _ IH]; [done|].
  cbn. destruct r; [done|]. cbn. by rewrite IH.
Qed.

(** The square of any tensor has a non-negative mean. *)
Lemma mean_of_square_nonneg t sq m :
  torch.pow t 2 = Some sq → torch.mean sq = Some m →
  ∃ a, data m = Sc a ∧ 0 <= a.
Proof.
  destruct t as [[x|xs] g]; unfold torch.pow; cbn [data requires_grad].
  - rewrite pow_entry_square. cbn. intros [= <-] [= <-]. cbn.
    eexists; split; [done|nra].
  - rewrite mapM_pow_square. cbn. intros [= <-].
    unfold torch.mean. cbn [data requires_grad].
    destruct (map square xs) eqn:E; [done|]. intros [= <-]. cbn.
    eexists; split; [done|]. rewrite <- E. apply mean_squares_nonneg.
Qed.

End ShapeFacts.

(** ** The two halves of [loss] on an aligned batch *)

Section LossFacts.

Variable ev : tdata → tdata → R.

Lemma binop_scalar_l f x g b :
  ∃ r, binop f (Tensor (Sc x) g) b = Some r
       ∧ requires_grad r = g || requires_grad b
       ∧ (∀ n, expand n (data r) = map (f x) (expand n (data b)))
       ∧ (∀ n, length (expand n (data r)) = length (expand n (data b))).
Proof.
  destruct b as [[y|ys] h]; eexists; (split; [done|]); cbn.
  - split; [done|]. split; intros n.
    + by rewrite fmap_replicate.
    + by rewrite !length_replicate.
  - split; [done|]. split; intros n; [done|]. by rewrite length_map.
Qed.

(** The advantage-weighted branch: residuals, their mean square, the
    moving-average update, and the weights computed from the updated
    average. *)
Lemma advantage_estimation_weighted self train_batch cr gc sv gs m gm :
  beta (config self) ≠ 0 →
  advantages train_batch = Some (tvec cr gc) →
  value_function train_batch = tvec sv gs →
  length cr = length sv → cr ≠ [] →
  _moving_average_sqd_adv_norm self = Some (tvec [m] gm) →
  let a := adv_sq_mean_spec cr sv in
  let m' := moving_avg_spec
              (moving_average_sqd_adv_norm_update_rate (config self)) m a in
  0 <= m' →
  advantage_estimation ev train_batch self
  = Some (tvec (map (exp_adv_outside (beta (config self)) m')
                    (residual_spec cr sv)) false,
          {| config := config self;
             _moving_average_sqd_adv_norm :=
               Some (tvec [m'] (gm || (gc || gs || gm)));
             explained_variance :=
               Some (Tensor (Sc (ev (Vec cr) (Vec sv))) (gc || gs));
             v_loss := Some (Tensor (Sc (0.5 * a)) (gc || gs));
             p_loss := p_loss self;
             total_loss := total_loss self |}).
Proof.
  intros Hb Hadv Hvf Hlen Hne Hm a m' Hm'.
  assert (Hsq : map square (zip_with Rminus cr sv) ≠ []).
  { destruct cr, sv; done. }
  unfold advantage_estimation.
  rewrite bind_get_self, decide_True by done.
  rewrite bind_lift, Hadv, Hvf.
  unfold torch.sub. rewrite bind_lift, binop_same by done.
  rewrite bind_lift, torch_pow_square.
  rewrite bind_lift, torch_mean_vec by done.
  rewrite bind_lift. unfold explained_variance_of.
  cbn [torch.mean data requires_grad tvec].
  rewrite bind_set_explained_variance.
  rewrite bind_getattr. cbn [_moving_average_sqd_adv_norm]. rewrite Hm.
  unfold pyfloat, torch.mul.
  rewrite bind_lift, binop_sc_vec, bind_lift, binop_sc_vec.
  cbn [map]. rewrite bind_lift, torch_add__single.
  rewrite bind_set__moving_average_sqd_adv_norm.
  rewrite bind_getattr. cbn [_moving_average_sqd_adv_norm].
  rewrite bind_lift, torch_pow_root by done.
  unfold torch.add. rewrite bind_lift, binop_sc_vec. cbn [map].
  unfold torch.div. rewrite bind_lift, binop_vec_single.
  rewrite bind_lift, binop_sc_vec.
  rewrite bind_lift, binop_sc_sc.
  rewrite bind_set_v_loss.
  unfold mret, M_ret, torch.detach, torch.exp, unop, tvec.
  cbn [data requires_grad orb].
  rewrite <- !list_fmap_compose. reflexivity.
Qed.

(** The behavioural-cloning branch touches [v_loss] only. *)
Lemma advantage_estimation_bc self train_batch :
  beta (config self) = 0 →
  advantage_estimation ev train_batch self
  = Some (pyfloat 1,
          {| config := config self;
             _moving_average_sqd_adv_norm := _moving_average_sqd_adv_norm self;
             explained_variance := explained_variance self;
             v_loss := Some (pyfloat 0);
             p_loss := p_loss self;
             total_loss := total_loss self |}).
Proof.
  intros Hb. unfold advantage_estimation.
  rewrite bind_get_self, decide_False by (intros H; by apply H).
  done.
Qed.

Lemma logstd_term_expand cfg train_batch lp cr sv ls self :
  config self = cfg →
  aligned cfg train_batch lp cr sv ls →
  ∃ t, logstd_term train_batch self = Some (t, self)
       ∧ expand (length lp) (data t)
         = logstd_spec (bc_logstd_coeff cfg) (length lp) ls
       ∧ length (expand (length lp) (data t)) = length lp.
Proof.
  intros <- Hal. unfold logstd_term, logstd_spec.
  rewrite bind_get_self. case_decide as Hc.
  - destruct (aligned_logstd _ _ _ _ _ _ Hal Hc) as (t & Ht & Hrows & Hlen & Hne).
    destruct t as [rs g]. cbn in Hrows. subst rs.
    exists (tvec (map mean_list ls) g).
    rewrite bind_lift, Ht. unfold lift.
    rewrite torch_mean_dim1_rows by done. cbn.
    by rewrite length_map.
  - exists (pyfloat 0). cbn. by rewrite length_replicate.
Qed.

(** The second half of [loss]: from the weights and the log-std term to
    the two stored losses. *)
Lemma loss_from_weights self train_batch w self1 t lp gl v gv :
  advantage_estimation ev train_batch self = Some (w, self1) →
  logstd_term train_batch self1 = Some (t, self1) →
  logp_actions train_batch = tvec lp gl → lp ≠ [] →
  length (expand (length lp) (data w)) = length lp →
  length (expand (length lp) (data t)) = length lp →
  v_loss self1 = Some (Tensor (Sc v) gv) →
  let pl := policy_loss_spec (bc_logstd_coeff (config self1))
              (expand (length lp) (data w)) lp
              (expand (length lp) (data t)) in
  let gp := requires_grad w || (gl || requires_grad t) in
  let total := Tensor (Sc (pl + vf_coeff (config self1) * v)) (gp || gv) in
  loss ev train_batch self
  = Some (total,
          {| config := config self1;
             _moving_average_sqd_adv_norm := _moving_average_sqd_adv_norm self1;
             explained_variance := explained_variance self1;
             v_loss := v_loss self1;
             p_loss := Some (Tensor (Sc pl) gp);
             total_loss := Some total |}).
Proof.
  intros Hw Ht Hlp Hne Hlw Hlt Hv pl gp total.
  unfold loss.
  rewrite (bind_run _ _ _ _ _ Hw), (bind_run _ _ _ _ _ Ht), bind_get_self.
  rewrite Hlp. unfold torch.mul, torch.add, pyfloat.
  destruct (binop_scalar_l Rmult (bc_logstd_coeff (config self1)) false t)
    as (sc & -> & Hgsc & Hdsc & Hlsc).
  rewrite bind_lift.
  rewrite bind_lift, (binop_expand Rplus (tvec lp gl) sc (length lp));
    [|done|by rewrite Hlsc|left; by eexists].
  cbn [data requires_grad tvec expand]. rewrite Hdsc, Hgsc.
  rewrite zip_with_fmap_r.
  set (inner := zip_with _ lp _).
  assert (Hinner : length inner = length lp).
  { unfold inner. rewrite length_zip_with, Hlt. lia. }
  rewrite bind_lift,
    (binop_expand Rmult w (tvec inner _) (length lp));
    [|done|done|right; by eexists].
  cbn [data requires_grad tvec expand orb].
  set (weighted := zip_with Rmult _ inner).
  assert (Hweighted : weighted ≠ []).
  { intros E. apply (f_equal length) in E. unfold weighted in E.
    rewrite length_zip_with, Hlw, Hinner in E. destruct lp; [done|].
    cbn in E. lia. }
  rewrite bind_lift, torch_mean_vec by done.
  rewrite bind_set_p_loss.
  rewrite bind_getattr. cbn [p_loss].
  rewrite bind_getattr. cbn [v_loss]. rewrite Hv.
  rewrite bind_lift, binop_sc_sc, bind_lift.
  unfold torch.neg, unop. cbn [data requires_grad orb].
  rewrite binop_sc_sc.
  rewrite bind_set_total_loss.
  unfold getattr. cbn [total_loss fmap option_fmap option_map].
  reflexivity.
Qed.

(** [loss] on an aligned batch in the advantage-weighted mode. *)
Lemma loss_weighted_aligned self train_batch lp cr sv ls m :
  beta (config self) ≠ 0 →
  aligned (config self) train_batch lp cr sv ls →
  norm_is self m →
  let a := adv_sq_mean_spec cr sv in
  let m' := moving_avg_spec
              (moving_average_sqd_adv_norm_update_rate (config self)) m a in
  let exp_advs := map (exp_adv_outside (beta (config self)) m')
                      (residual_spec cr sv) in
  let pl := policy_loss_spec (bc_logstd_coeff (config self)) exp_advs lp
              (logstd_spec (bc_logstd_coeff (config self)) (length lp) ls) in
  0 <= m' →
  ∃ self1 result self',
    advantage_estimation ev train_batch self = Some (tvec exp_advs false, self1)
    ∧ loss ev train_batch self = Some (result, self')
    ∧ config self' = config self
    ∧ norm_is self' m'
    ∧ (∃ g, v_loss self' = Some (Tensor (Sc (0.5 * a)) g))
    ∧ (∃ g, p_loss self' = Some (Tensor (Sc pl) g))
    ∧ total_loss self' = Some result
    ∧ data result = Sc (pl + vf_coeff (config self) * (0.5 * a)).
Proof.
  intros Hb Hal [gm Hm] a m' exp_advs pl Hm'.
  destruct (aligned_adv _ _ _ _ _ _ Hal Hb)
    as ([d gc] & Hadv & Hd & Hvf & Hlc & Hls).
  cbn in Hd. subst d.
  destruct (value_function train_batch) as [d gs] eqn:Evf.
  cbn in Hvf. subst d.
  pose proof (aligned_nonempty _ _ _ _ _ _ Hal) as Hne.
  pose proof (aligned_logp _ _ _ _ _ _ Hal) as Hlp.
  destruct (logp_actions train_batch) as [d gl] eqn:Elp.
  cbn in Hlp. subst d.
  assert (Hcr : cr ≠ []) by (destruct cr, lp; done).
  pose proof (advantage_estimation_weighted self train_batch cr gc sv gs m gm
                Hb Hadv Evf ltac:(congruence) Hcr Hm Hm') as Hw.
  cbv zeta in Hw. fold a in Hw. fold m' in Hw. fold exp_advs in Hw.
  match type of Hw with _ = Some (_, ?s) => set (self1 := s) in * end.
  destruct (logstd_term_expand (config self) train_batch lp cr sv ls self1
              eq_refl Hal) as (t & Ht & Het & Hlt).
  assert (Hlw : length (expand (length lp) (data (tvec exp_advs false)))
                = length lp).
  { cbn. unfold exp_advs, residual_spec.
    rewrite length_map, length_zip_with. lia. }
  pose proof (loss_from_weights self train_batch _ self1 t lp gl _ _
                Hw Ht Elp Hne Hlw Hlt eq_refl) as Hloss.
  cbv zeta in Hloss. rewrite Het in Hloss.
  eexists self1, _, _. split; [exact Hw|]. split; [exact Hloss|].
  cbn. repeat split; try done; by eexists.
Qed.

(** [loss] on an aligned batch in behavioural cloning. *)
Lemma loss_bc_aligned self train_batch lp cr sv ls :
  beta (config self) = 0 →
  aligned (config self) train_batch lp cr sv ls →
  let pl := policy_loss_spec (bc_logstd_coeff (config self))
              (replicate (length lp) 1) lp
              (logstd_spec (bc_logstd_coeff (config self)) (length lp) ls) in
  ∃ g,
    loss ev train_batch self
    = Some (Tensor (Sc pl) g,
            {| config := config self;
               _moving_average_sqd_adv_norm := _moving_average_sqd_adv_norm self;
               explained_variance := explained_variance self;
               v_loss := Some (pyfloat 0);
               p_loss := Some (Tensor (Sc pl) g);
               total_loss := Some (Tensor (Sc pl) g) |}).
Proof.
  intros Hb Hal pl.
  pose proof (aligned_nonempty _ _ _ _ _ _ Hal) as Hne.
  pose proof (aligned_logp _ _ _ _ _ _ Hal) as Hlp.
  destruct (logp_actions train_batch) as [d gl] eqn:Elp.
  cbn in Hlp. subst d.
  pose proof (advantage_estimation_bc self train_batch Hb) as Hw.
  match type of Hw with _ = Some (_, ?s) => set (self1 := s) in * end.
  destruct (logstd_term_expand (config self) train_batch lp cr sv ls self1
              eq_refl Hal) as (t & Ht & Het & Hlt).
  pose proof (loss_from_weights self train_batch _ self1 t lp gl 0 false
                Hw Ht Elp Hne ltac:(cbn; by rewrite length_replicate)
                Hlt eq_refl) as Hloss.
  cbv zeta in Hloss. rewrite Het in Hloss. cbn in Hloss.
  fold pl in Hloss. rewrite Hloss.
  exists (gl || requires_grad t).
  rewrite orb_false_r.
  replace (pl + vf_coeff (config self) * 0) with pl by lra.
  done.
Qed.

(** *** What a returning call went through *)

Ltac step_inv H :=
  let x := fresh "x" in
  let s := fresh "s" in
  let Hs := fresh "Hstep" in
  apply bind_Some in H as (x & s & Hs & H);
  first [ apply lift_Some in Hs as [Hs ->]
        | apply getattr_Some in Hs as [Hs ->]
        | injection Hs as <- <- ].

Lemma advantage_estimation_inv self train_batch w self1 :
  advantage_estimation ev train_batch self = Some (w, self1) →
  config self1 = config self
  ∧ p_loss self1 = p_loss self
  ∧ total_loss self1 = total_loss self
  ∧ ((beta (config self) = 0
      ∧ w = pyfloat 1
      ∧ _moving_average_sqd_adv_norm self1 = _moving_average_sqd_adv_norm self
      ∧ explained_variance self1 = explained_variance self
      ∧ v_loss self1 = Some (pyfloat 0))
     ∨ (beta (config self) ≠ 0
        ∧ ∃ adv_squared_mean old diff step updated e v,
            (∃ a, data adv_squared_mean = Sc a ∧ 0 <= a)
            ∧ _moving_average_sqd_adv_norm self = Some old
            ∧ torch.sub adv_squared_mean old = Some diff
            ∧ torch.mul
                (pyfloat (moving_average_sqd_adv_norm_update_rate (config self)))
                diff = Some step
            ∧ torch.add_ old step = Some updated
            ∧ _moving_average_sqd_adv_norm self1 = Some updated
            ∧ explained_variance self1 = Some e
            ∧ v_loss self1 = Some v)).
Proof.
  unfold advantage_estimation. intros H.
  rewrite bind_get_self in H. case_decide as Hb.
  - repeat step_inv H. injection H as <- <-.
    cbn [config p_loss total_loss _moving_average_sqd_adv_norm
         explained_variance v_loss] in *.
    repeat split; try done. right. split; [done|].
    exists x2, x4, x5, x6, x7, x3, x13.
    repeat split; try done.
    by eapply mean_of_square_nonneg.
  - step_inv H. injection H as <- <-.
    cbn [config p_loss total_loss _moving_average_sqd_adv_norm
         explained_variance v_loss].
    repeat split; try done. by left.
Qed.

Lemma logstd_term_state train_batch self t self' :
  logstd_term train_batch self = Some (t, self') → self' = self.
Proof.
  unfold logstd_term. intros H. rewrite bind_get_self in H.
  case_decide.
  - step_inv H. by apply lift_Some in H as [_ ->].
  - by injection H as <- <-.
Qed.

Lemma loss_inv self train_batch result self' :
  loss ev train_batch self = Some (result, self') →
  ∃ w self1 p,
    advantage_estimation ev train_batch self = Some (w, self1)
    ∧ config self' = config self1
    ∧ _moving_average_sqd_adv_norm self' = _moving_average_sqd_adv_norm self1
    ∧ explained_variance self' = explained_variance self1
    ∧ v_loss self' = v_loss self1
    ∧ p_loss self' = Some p
    ∧ total_loss self' = Some result.
Proof.
  unfold loss. intros H.
  apply bind_Some in H as (w & self1 & Hw & H).
  apply bind_Some in H as (t & s & Ht & H).
  apply logstd_term_state in Ht as ->.
  rewrite bind_get_self in H.
  repeat step_inv H.
  apply getattr_Some in H as [H ->].
  by eexists w, self1, _.
Qed.

(** [stats_fn] once the attributes it reads are set. *)
Lemma stats_fn_bc self p total :
  beta (config self) = 0 →
  p_loss self = Some p → total_loss self = Some total →
  stats_fn self
  = Some (convert_to_numpy
            (<["total_loss" := total]> (<["policy_loss" := p]> ∅)), self).
Proof.
  intros Hb Hp Ht. unfold stats_fn.
  rewrite bind_get_self, bind_getattr, Hp, bind_getattr, Ht.
  rewrite decide_False by (intros H; by apply H). done.
Qed.

Lemma stats_fn_weighted self p total norm e v :
  beta (config self) ≠ 0 →
  p_loss self = Some p → total_loss self = Some total →
  _moving_average_sqd_adv_norm self = Some norm →
  explained_variance self = Some e → v_loss self = Some v →
  stats_fn self
  = Some (convert_to_numpy
            (<["vf_loss" := v]>
              (<["vf_explained_var" := e]>
                (<["moving_average_sqd_adv_norm" := norm]>
                  (<["total_loss" := total]> (<["policy_loss" := p]> ∅))))),
          self).
Proof.
  intros Hb Hp Ht Hn He Hv. unfold stats_fn.
  rewrite bind_get_self, bind_getattr, Hp, bind_getattr, Ht.
  rewrite decide_True by done.
  rewrite (bind_run (getattr _moving_average_sqd_adv_norm
                      ≫= λ norm, _) _ self
             (<["vf_loss" := v]>
               (<["vf_explained_var" := e]>
                 (<["moving_average_sqd_adv_norm" := norm]>
                   (<["total_loss" := total]> (<["policy_loss" := p]> ∅)))))
             self); [done|].
  by rewrite bind_getattr, Hn, bind_getattr, He, bind_getattr, Hv.
Qed.

Lemma stats_fn_state self stats self' :
  stats_fn self = Some (stats, self') → self' = self.
Proof.
  unfold stats_fn. intros H. rewrite bind_get_self in H.
  do 2 step_inv H. apply bind_Some in H as (st & s & Hs & H).
  injection H as <- <-.
  case_decide.
  - do 3 step_inv Hs. by injection Hs as <- <-.
  - by injection Hs as <- <-.
Qed.

(** *** The loss of one call *)

(** C1: with [beta != 0], the moving average after a [loss] call is
    [old_avg + update_rate * (mean((batch.advantage - value_estimate)^2)
    - old_avg)], and [exp_advs] of that same call is computed from this
    updated value: the weights that enter the policy loss are those of
    the average the call leaves behind. *)
Theorem loss_updates_moving_average_then_uses_it
    self train_batch lp cr sv ls old_avg :
  beta (config self) ≠ 0 →
  aligned (config self) train_batch lp cr sv ls →
  norm_is self old_avg →
  let update_rate := moving_average_sqd_adv_norm_update_rate (config self) in
  let new_avg := moving_avg_spec update_rate old_avg (adv_sq_mean_spec cr sv) in
  0 <= new_avg →
  ∃ exp_advs self1 result self',
    advantage_estimation ev train_batch self = Some (exp_advs, self1)
    ∧ loss ev train_batch self = Some (result, self')
    ∧ norm_is self' new_avg
    ∧ data exp_advs
      = Vec (map (exp_adv_outside (beta (config self)) new_avg)
                 (residual_spec cr sv))
    ∧ data <$> p_loss self'
      = Some (Sc (policy_loss_spec (bc_logstd_coeff (config self))
                    (expand (length lp) (data exp_advs)) lp
                    (logstd_spec (bc_logstd_coeff (config self))
                                 (length lp) ls))).
Proof.
  intros Hb Hal Hm update_rate new_avg Hnew.
  destruct (loss_weighted_aligned self train_batch lp cr sv ls old_avg
              Hb Hal Hm Hnew)
    as (self1 & result & self' & Hw & Hloss & _ & Hn & _ & [g Hp] & _).
  eexists _, self1, result, self'.
  split; [exact Hw|]. split; [exact Hloss|]. split; [exact Hn|].
  split; [done|]. by rewrite Hp.
Qed.

(** C2 (as the code has it): with [beta != 0], for every transition [i]
    [exp_advs[i] = exp(beta * (advantage[i] / (1e-8 + sqrt(moving_avg))))]
    with the updated moving average: the epsilon is added to the square
    root, not under it; [exp_advs] is detached from the gradient. *)
Theorem exp_advs_epsilon_added_to_root
    self train_batch lp cr sv ls old_avg :
  beta (config self) ≠ 0 →
  aligned (config self) train_batch lp cr sv ls →
  norm_is self old_avg →
  let update_rate := moving_average_sqd_adv_norm_update_rate (config self) in
  let moving_avg := moving_avg_spec update_rate old_avg (adv_sq_mean_spec cr sv) in
  0 <= moving_avg →
  ∃ exp_advs self1 ws,
    advantage_estimation ev train_batch self = Some (exp_advs, self1)
    ∧ norm_is self1 moving_avg
    ∧ data exp_advs = Vec ws
    ∧ requires_grad exp_advs = false
    ∧ length ws = length lp
    ∧ ∀ i advantage,
        residual_spec cr sv !! i = Some advantage →
        ws !! i = Some (exp (beta (config self)
                             * (advantage / (1e-8 + sqrt moving_avg)))).
Proof.
  intros Hb Hal [gm Hm] update_rate moving_avg Hnew.
  destruct (aligned_adv _ _ _ _ _ _ Hal Hb)
    as ([d gc] & Hadv & Hd & Hvf & Hlc & Hls).
  cbn in Hd. subst d.
  destruct (value_function train_batch) as [d gs] eqn:Evf.
  cbn in Hvf. subst d.
  pose proof (aligned_nonempty _ _ _ _ _ _ Hal) as Hne.
  assert (Hcr : cr ≠ []) by (destruct cr, lp; done).
  pose proof (advantage_estimation_weighted self train_batch cr gc sv gs
                old_avg gm Hb Hadv Evf ltac:(congruence) Hcr Hm Hnew) as Hw.
  eexists _, _, _. split; [exact Hw|].
  split; [by eexists|]. split; [done|]. split; [done|]. split.
  - unfold residual_spec. rewrite length_map, length_zip_with. lia.
  - intros i advantage Hi. rewrite list_lookup_fmap, Hi. done.
Qed.

(** C3: with [beta == 0], [value_loss] is exactly [0.0], the total loss
    is the policy loss (whatever [vf_coeff]), and there is no
    moving-average state: none is allocated at construction and [loss]
    leaves the attribute as it is. *)
Theorem bc_mode_has_no_value_loss_and_no_moving_average cfg :
  beta cfg = 0 →
  (∀ self, reachable ev cfg self →
           _moving_average_sqd_adv_norm self = None)
  ∧ (∀ self train_batch lp cr sv ls,
       config self = cfg →
       aligned cfg train_batch lp cr sv ls →
       ∃ result self',
         loss ev train_batch self = Some (result, self')
         ∧ v_loss self' = Some (pyfloat 0)
         ∧ p_loss self' = Some result
         ∧ total_loss self' = Some result
         ∧ _moving_average_sqd_adv_norm self'
           = _moving_average_sqd_adv_norm self).
Proof.
  intros Hb. split.
  - intros self Hr.
    enough (config self = cfg ∧ _moving_average_sqd_adv_norm self = None)
      as [_ ?]; [done|].
    induction Hr as [dummy self Hinit|train_batch self result self' _ [Hc Hn] Hl].
    + unfold __init__, _initialize_loss_from_dummy_batch in Hinit.
      apply fmap_Some in Hinit as ([[] s] & Hinit & ->).
      apply bind_Some in Hinit as (r & s1 & Hl & Hinit).
      apply bind_Some in Hinit as (st & s2 & Hst & Hinit).
      injection Hinit as <-. apply stats_fn_state in Hst as ->.
      apply loss_inv in Hl as (w & s0 & p & Hw & Hc & Hn & _).
      apply advantage_estimation_inv in Hw as (Hc0 & _ & _ & [H|[H _]]).
      * destruct H as (_ & _ & Hn0 & _). cbn in *.
        rewrite Hc, Hc0, Hn, Hn0. split; [done|].
        by rewrite decide_False by (intros H; by apply H).
      * by cbn in H.
    + apply loss_inv in Hl as (w & s0 & p & Hw & Hc' & Hn' & _).
      apply advantage_estimation_inv in Hw as (Hc0 & _ & _ & [H|[H _]]).
      * destruct H as (_ & _ & Hn0 & _). split; congruence.
      * congruence.
  - intros self train_batch lp cr sv ls <- Hal.
    destruct (loss_bc_aligned self train_batch lp cr sv ls Hb Hal)
      as [g Hloss].
    eexists _, _. split; [exact Hloss|]. done.
Qed.

(** C4: with [beta != 0], the value loss is
    [0.5 * mean((batch.advantage[i] - value_estimate[i])^2)]. *)
Theorem value_loss_is_half_mean_squared_residual
    self train_batch lp cr sv ls old_avg :
  beta (config self) ≠ 0 →
  aligned (config self) train_batch lp cr sv ls →
  norm_is self old_avg →
  0 <= moving_avg_spec
         (moving_average_sqd_adv_norm_update_rate (config self)) old_avg
         (adv_sq_mean_spec cr sv) →
  ∃ result self',
    loss ev train_batch self = Some (result, self')
    ∧ data <$> v_loss self'
      = Some (Sc (0.5 * mean_list
                          (map (λ x, x * x) (zip_with Rminus cr sv)))).
Proof.
  intros Hb Hal Hm Hnew.
  destruct (loss_weighted_aligned self train_batch lp cr sv ls old_avg
              Hb Hal Hm Hnew)
    as (self1 & result & self' & _ & Hloss & _ & _ & [g Hv] & _).
  exists result, self'. split; [exact Hloss|]. by rewrite Hv.
Qed.

(** C5: [policy_loss = -mean(exp_advs[i] * (logprobs[i] + bc_logstd_coeff
    * logstd[i]))], where [logstd[i]] is the mean of the distribution's
    log-standard-deviation over the action dimensions when
    [bc_logstd_coeff > 0.0] and 0 otherwise, and
    [total_loss = policy_loss + vf_coeff * value_loss]. *)
Theorem policy_loss_and_total_loss_formulas
    self train_batch lp cr sv ls :
  aligned (config self) train_batch lp cr sv ls →
  (beta (config self) ≠ 0 →
   ∃ old_avg,
     norm_is self old_avg
     ∧ 0 <= moving_avg_spec
              (moving_average_sqd_adv_norm_update_rate (config self))
              old_avg (adv_sq_mean_spec cr sv)) →
  ∃ exp_advs self1 result self' policy_loss value_loss,
    advantage_estimation ev train_batch self = Some (exp_advs, self1)
    ∧ loss ev train_batch self = Some (result, self')
    ∧ data <$> p_loss self' = Some (Sc policy_loss)
    ∧ policy_loss
      = policy_loss_spec (bc_logstd_coeff (config self))
          (expand (length lp) (data exp_advs)) lp
          (logstd_spec (bc_logstd_coeff (config self)) (length lp) ls)
    ∧ data <$> v_loss self' = Some (Sc value_loss)
    ∧ total_loss self' = Some result
    ∧ data result
      = Sc (policy_loss + vf_coeff (config self) * value_loss).
Proof.
  intros Hal Hnorm.
  destruct (decide (beta (config self) = 0)) as [Hb|Hb].
  - destruct (loss_bc_aligned self train_batch lp cr sv ls Hb Hal)
      as [g Hloss].
    eexists _, _, _, _, _, 0.
    split; [by apply advantage_estimation_bc|].
    split; [exact Hloss|]. cbn.
    repeat split; try done. f_equal. lra.
  - destruct (Hnorm Hb) as (old_avg & Hm & Hnew).
    destruct (loss_weighted_aligned self train_batch lp cr sv ls old_avg
                Hb Hal Hm Hnew)
      as (self1 & result & self' & Hw & Hloss & _ & _ & [gv Hv] & [gp Hp]
          & Ht & Hd).
    eexists _, self1, result, self', _, _.
    split; [exact Hw|]. split; [exact Hloss|].
    rewrite Hp, Hv. cbn. done.
Qed.

(** C6 (as the code has it): for a fixed moving average and [beta > 0]
    ([beta != 0.0] with [beta >= 0]) there is one weight per transition
    and [exp_advs] is non-decreasing in the advantage: of two transitions
    of a call, the one with the advantage at least as large has a weight
    at least as large. *)
Theorem exp_advs_nondecreasing_in_advantage
    self train_batch lp cr sv ls old_avg :
  beta (config self) ≠ 0 →
  0 <= beta (config self) →
  aligned (config self) train_batch lp cr sv ls →
  norm_is self old_avg →
  0 <= moving_avg_spec
         (moving_average_sqd_adv_norm_update_rate (config self)) old_avg
         (adv_sq_mean_spec cr sv) →
  ∃ exp_advs self1 ws,
    advantage_estimation ev train_batch self = Some (exp_advs, self1)
    ∧ data exp_advs = Vec ws
    ∧ length ws = length lp
    ∧ ∀ i j adv_i adv_j,
        zip_with Rminus cr sv !! i = Some adv_i →
        zip_with Rminus cr sv !! j = Some adv_j →
        adv_i >= adv_j →
        ∃ w_i w_j,
          ws !! i = Some w_i ∧ ws !! j = Some w_j ∧ w_i >= w_j.
Proof.
  intros Hb Hb0 Hal Hm Hnew.
  destruct (loss_weighted_aligned self train_batch lp cr sv ls old_avg
              Hb Hal Hm Hnew) as (self1 & _ & _ & Hw & _).
  destruct (aligned_adv _ _ _ _ _ _ Hal Hb) as (t & _ & _ & _ & Hlc & Hls).
  eexists _, self1, _. split; [exact Hw|]. split; [done|]. split.
  { unfold residual_spec. rewrite length_map, length_zip_with. lia. }
  intros i j adv_i adv_j Hi Hj Hge.
  eexists _, _. unfold residual_spec.
  rewrite !list_lookup_fmap, Hi, Hj.
  split; [done|]. split; [done|].
  unfold exp_adv_outside.
  set (d := 1e-8 + sqrt _).
  assert (0 < d).
  { unfold d. pose proof (sqrt_pos
      (moving_avg_spec (moving_average_sqd_adv_norm_update_rate (config self))
         old_avg (adv_sq_mean_spec cr sv))). lra. }
  assert (Hi' : 0 < / d) by (by apply Rinv_0_lt_compat).
  destruct Hge as [Hgt|Heq]; [|rewrite Heq; lra].
  left. apply exp_increasing.
  apply Rmult_lt_compat_l; [lra|].
  apply Rmult_lt_compat_r; [done|lra].
Qed.

(** *** The moving average over the life of a policy *)

Lemma moving_avg_spec_nonneg rate old a :
  0 < rate <= 1 → 0 <= old → 0 <= a → 0 <= moving_avg_spec rate old a.
Proof. intros Hr Ho Ha. unfold moving_avg_spec. nra. Qed.

Lemma loss_keeps_norm_ok self train_batch result self' :
  0 < moving_average_sqd_adv_norm_update_rate (config self) <= 1 →
  norm_ok self →
  loss ev train_batch self = Some (result, self') →
  config self' = config self ∧ norm_ok self'.
Proof.
  intros Hrate Hok Hl.
  apply loss_inv in Hl as (w & s1 & p & Hw & Hc & Hn & _).
  apply advantage_estimation_inv in Hw as (Hc1 & _ & _ & H).
  split; [congruence|]. unfold norm_ok in *. rewrite Hn, Hc, Hc1.
  destruct H as [(Hb & _ & Hn1 & _)|(Hb & H)].
  - by rewrite Hn1.
  - destruct H as (asm & old & diff & step & updated & e & v
                   & (a & Ha & Hpos) & Hold & Hdiff & Hstep & Hupd & Hn1 & _).
    rewrite Hn1. rewrite Hold in Hok.
    destruct Hok as (m & g & -> & Hm).
    destruct asm as [d ga]. cbn in Ha. subst d.
    unfold torch.sub in Hdiff. rewrite binop_sc_vec in Hdiff.
    injection Hdiff as <-.
    unfold torch.mul, pyfloat in Hstep. rewrite binop_sc_vec in Hstep.
    injection Hstep as <-. cbn [map] in Hupd.
    rewrite torch_add__single in Hupd. injection Hupd as <-.
    eexists _, _. split; [done|].
    by apply moving_avg_spec_nonneg.
Qed.

Lemma reachable_norm_ok cfg self :
  0 <= moving_average_sqd_adv_norm_start cfg →
  0 < moving_average_sqd_adv_norm_update_rate cfg <= 1 →
  reachable ev cfg self →
  config self = cfg ∧ norm_ok self.
Proof.
  intros Hstart Hrate Hr.
  induction Hr as [dummy self Hinit|train_batch self result self' _ [Hc Hn] Hl].
  - unfold __init__, _initialize_loss_from_dummy_batch in Hinit.
    apply fmap_Some in Hinit as ([[] s] & Hinit & ->).
    apply bind_Some in Hinit as (r & s1 & Hl & Hinit).
    apply bind_Some in Hinit as (st & s2 & Hst & Hinit).
    injection Hinit as <-. apply stats_fn_state in Hst as ->.
    apply loss_keeps_norm_ok in Hl as [Hc Hn]; [done|done|].
    unfold norm_ok. cbn. case_decide; [|done].
    by eexists _, _.
  - subst cfg. by apply loss_keeps_norm_ok in Hl as [Hc Hn'].
Qed.

(** Under the expected configuration a reachable policy never faults on
    an aligned batch: the square root always finds a non-negative
    average. *)
Lemma loss_returns_on_reachable cfg self train_batch lp cr sv ls :
  0 <= moving_average_sqd_adv_norm_start cfg →
  0 < moving_average_sqd_adv_norm_update_rate cfg <= 1 →
  reachable ev cfg self →
  aligned cfg train_batch lp cr sv ls →
  ∃ result self', loss ev train_batch self = Some (result, self').
Proof.
  intros Hstart Hrate Hr Hal.
  destruct (reachable_norm_ok cfg self Hstart Hrate Hr) as [<- Hok].
  destruct (decide (beta (config self) = 0)) as [Hb|Hb].
  - destruct (loss_bc_aligned self train_batch lp cr sv ls Hb Hal) as [g H].
    by eexists _, _.
  - unfold norm_ok in Hok.
    destruct (_moving_average_sqd_adv_norm self) as [t|] eqn:Hn; [|done].
    destruct Hok as (m & g & -> & Hm).
    destruct (loss_weighted_aligned self train_batch lp cr sv ls m Hb Hal)
      as (self1 & result & self' & _ & Hloss & _); [by eexists| |by eauto].
    apply moving_avg_spec_nonneg; [done|done|].
    apply mean_squares_nonneg.
Qed.

(** *** Statistics *)

(** After a call that returned every attribute [stats_fn] reads is set. *)
Lemma attributes_after_loss self train_batch result self' :
  loss ev train_batch self = Some (result, self') →
  ∃ p, p_loss self' = Some p
       ∧ total_loss self' = Some result
       ∧ (beta (config self') ≠ 0 →
          ∃ norm e v, _moving_average_sqd_adv_norm self' = Some norm
                      ∧ explained_variance self' = Some e
                      ∧ v_loss self' = Some v).
Proof.
  intros Hl.
  apply loss_inv in Hl as (w & s1 & p & Hw & Hc & Hn & He & Hv & Hp & Ht).
  apply advantage_estimation_inv in Hw as (Hc1 & _ & _ & H).
  exists p. split; [done|]. split; [done|]. intros Hb.
  destruct H as [(Hb0 & _)|(_ & H)]; [congruence|].
  destruct H as (_ & _ & _ & _ & updated & e & v
                 & _ & _ & _ & _ & _ & Hn1 & He1 & Hv1).
  exists updated, e, v. split; [congruence|]. split; congruence.
Qed.

Lemma stats_fn_after_loss self train_batch result self' :
  loss ev train_batch self = Some (result, self') →
  ∃ stats,
    stats_fn self' = Some (stats, self')
    ∧ (beta (config self') ≠ 0 →
       stats !! "moving_average_sqd_adv_norm"
       = data <$> _moving_average_sqd_adv_norm self').
Proof.
  intros Hl.
  destruct (attributes_after_loss _ _ _ _ Hl) as (p & Hp & Ht & H).
  destruct (decide (beta (config self') = 0)) as [Hb|Hb].
  - rewrite (stats_fn_bc self' p result Hb Hp Ht). eexists. split; [done|].
    intros Hb'. by destruct Hb'.
  - destruct (H Hb) as (norm & e & v & Hn & He & Hv).
    rewrite (stats_fn_weighted self' p result norm e v Hb Hp Ht Hn He Hv).
    eexists. split; [done|]. intros _.
    unfold convert_to_numpy. rewrite Hn. by simplify_map_eq.
Qed.

(** C8: after a [loss] call, [stats_fn] returns a mapping whose keys are
    exactly [policy_loss] and [total_loss] when [beta == 0.0], and those
    two with [moving_average_sqd_adv_norm], [vf_explained_var] and
    [vf_loss] when [beta != 0.0]; every value is the data of the
    quantity that call left behind. *)
Theorem stats_fn_reports_the_last_loss self train_batch result self' :
  loss ev train_batch self = Some (result, self') →
  ∃ stats,
    stats_fn self' = Some (stats, self')
    ∧ dom stats = stats_keys (beta (config self'))
    ∧ stats !! "policy_loss" = data <$> p_loss self'
    ∧ stats !! "total_loss" = Some (data result)
    ∧ (beta (config self') ≠ 0 →
       stats !! "moving_average_sqd_adv_norm"
         = data <$> _moving_average_sqd_adv_norm self'
       ∧ stats !! "vf_explained_var" = data <$> explained_variance self'
       ∧ stats !! "vf_loss" = data <$> v_loss self').
Proof.
  intros Hl.
  destruct (attributes_after_loss _ _ _ _ Hl) as (p & Hp & Ht & H).
  unfold stats_keys.
  destruct (decide (beta (config self') = 0)) as [Hb|Hb].
  - rewrite (stats_fn_bc self' p result Hb Hp Ht).
    eexists. split; [done|].
    rewrite decide_False by (intros Hb'; by apply Hb').
    unfold convert_to_numpy. rewrite Hp.
    split; [|by simplify_map_eq].
    rewrite dom_fmap_L, !dom_insert_L, dom_empty_L. set_solver.
  - destruct (H Hb) as (norm & e & v & Hn & He & Hv).
    rewrite (stats_fn_weighted self' p result norm e v Hb Hp Ht Hn He Hv).
    eexists. split; [done|].
    rewrite decide_True by done.
    unfold convert_to_numpy. rewrite Hp, Hn, He, Hv.
    split; [|by simplify_map_eq].
    rewrite dom_fmap_L, !dom_insert_L, dom_empty_L. set_solver.
Qed.

(** *** Two calls on the same batch *)

Lemma advantage_estimation_faults_on_negative
    self train_batch cr gc sv gs m gm :
  beta (config self) ≠ 0 →
  advantages train_batch = Some (tvec cr gc) →
  value_function train_batch = tvec sv gs →
  length cr = length sv → cr ≠ [] →
  _moving_average_sqd_adv_norm self = Some (tvec [m] gm) →
  moving_avg_spec (moving_average_sqd_adv_norm_update_rate (config self)) m
    (adv_sq_mean_spec cr sv) < 0 →
  advantage_estimation ev train_batch self = None.
Proof.
  intros Hb Hadv Hvf Hlen Hne Hm Hm'.
  assert (Hsq : map square (zip_with Rminus cr sv) ≠ []).
  { destruct cr, sv; done. }
  unfold advantage_estimation.
  rewrite bind_get_self, decide_True by done.
  rewrite bind_lift, Hadv, Hvf.
  unfold torch.sub. rewrite bind_lift, binop_same by done.
  rewrite bind_lift, torch_pow_square.
  rewrite bind_lift, torch_mean_vec by done.
  rewrite bind_lift. unfold explained_variance_of.
  cbn [torch.mean data requires_grad tvec].
  rewrite bind_set_explained_variance.
  rewrite bind_getattr. cbn [_moving_average_sqd_adv_norm]. rewrite Hm.
  unfold pyfloat, torch.mul.
  rewrite bind_lift, binop_sc_vec, bind_lift, binop_sc_vec.
  cbn [map]. rewrite bind_lift, torch_add__single.
  rewrite bind_set__moving_average_sqd_adv_norm.
  rewrite bind_getattr. cbn [_moving_average_sqd_adv_norm].
  by rewrite bind_lift, torch_pow_root_neg.
Qed.

(** A call that returns on an aligned batch found a non-negative updated
    average and left it in the state. *)
Lemma loss_moves_norm_aligned self train_batch lp cr sv ls m result self' :
  beta (config self) ≠ 0 →
  aligned (config self) train_batch lp cr sv ls →
  norm_is self m →
  loss ev train_batch self = Some (result, self') →
  let m' := moving_avg_spec
              (moving_average_sqd_adv_norm_update_rate (config self)) m
              (adv_sq_mean_spec cr sv) in
  0 <= m' ∧ config self' = config self ∧ norm_is self' m'
  ∧ aligned (config self') train_batch lp cr sv ls.
Proof.
  intros Hb Hal Hm Hl m'.
  destruct (decide (m' < 0)) as [Hneg|Hpos].
  - exfalso. destruct Hm as [gm Hm].
    destruct (aligned_adv _ _ _ _ _ _ Hal Hb)
      as ([d gc] & Hadv & Hd & Hvf & Hlc & Hls).
    cbn in Hd. subst d.
    destruct (value_function train_batch) as [d gs] eqn:Evf.
    cbn in Hvf. subst d.
    pose proof (aligned_nonempty _ _ _ _ _ _ Hal) as Hne.
    assert (Hcr : cr ≠ []) by (destruct cr, lp; done).
    unfold loss in Hl. apply bind_Some in Hl as (w & s1 & Hw & _).
    rewrite (advantage_estimation_faults_on_negative self train_batch
               cr gc sv gs m gm) in Hw; try done. congruence.
  - assert (Hm' : 0 <= m') by lra.
    destruct (loss_weighted_aligned self train_batch lp cr sv ls m
                Hb Hal Hm Hm')
      as (self1 & r & s' & _ & Hloss & Hc & Hn & _).
    rewrite Hloss in Hl. injection Hl as <- <-.
    split; [done|]. split; [done|]. split; [done|]. by rewrite Hc.
Qed.

Lemma logstd_term_config train_batch self self' t :
  config self' = config self →
  logstd_term train_batch self = Some (t, self) →
  logstd_term train_batch self' = Some (t, self').
Proof.
  unfold logstd_term. rewrite !bind_get_self. intros ->.
  case_decide; [|by intros [= <-]].
  rewrite !bind_lift. destruct (log_std train_batch); [|done].
  unfold lift. destruct (torch.mean_dim1 _); [|done]. cbn. by intros [= <-].
Qed.

(** When the mean squared residual of the batch equals the moving
    average, a call leaves the average where it was, and a second call
    on the same inputs returns the same loss and the same state. *)
Lemma loss_repeats_at_settled_average
    self train_batch lp cr sv ls m result self1 :
  beta (config self) ≠ 0 →
  aligned (config self) train_batch lp cr sv ls →
  norm_is self m →
  adv_sq_mean_spec cr sv = m →
  loss ev train_batch self = Some (result, self1) →
  loss ev train_batch self1 = Some (result, self1).
Proof.
  intros Hb Hal [gm Hm] Ha Hl.
  assert (Hfix : moving_avg_spec
                   (moving_average_sqd_adv_norm_update_rate (config self)) m
                   (adv_sq_mean_spec cr sv) = m).
  { rewrite Ha. unfold moving_avg_spec. lra. }
  destruct (loss_moves_norm_aligned _ _ _ _ _ _ _ _ _ Hb Hal
              ltac:(by eexists) Hl) as (Hm0 & _).
  rewrite Hfix in Hm0.
  destruct (aligned_adv _ _ _ _ _ _ Hal Hb)
    as ([d gc] & Hadv & Hd & Hvf & Hlc & Hls).
  cbn in Hd. subst d.
  destruct (value_function train_batch) as [d gs] eqn:Evf.
  cbn in Hvf. subst d.
  pose proof (aligned_nonempty _ _ _ _ _ _ Hal) as Hne.
  pose proof (aligned_logp _ _ _ _ _ _ Hal) as Hlp.
  destruct (logp_actions train_batch) as [d gl] eqn:Elp.
  cbn in Hlp. subst d.
  assert (Hcr : cr ≠ []) by (destruct cr, lp; done).
  assert (Hlen : length cr = length sv) by congruence.
  (* the first call *)
  pose proof (advantage_estimation_weighted self train_batch cr gc sv gs m gm
                Hb Hadv Evf Hlen Hcr Hm) as Hw1.
  cbv zeta in Hw1. rewrite Hfix in Hw1. specialize (Hw1 Hm0).
  match type of Hw1 with _ = Some (?w, ?s) =>
    set (exp_advs := w) in *; set (mid1 := s) in * end.
  destruct (logstd_term_expand (config self) train_batch lp cr sv ls mid1
              eq_refl Hal) as (t & Ht1 & Het & Hlt).
  assert (Hlw : length (expand (length lp) (data exp_advs)) = length lp).
  { cbn. unfold residual_spec. rewrite length_map, length_zip_with. lia. }
  pose proof (loss_from_weights self train_batch _ mid1 t lp gl _ _
                Hw1 Ht1 Elp Hne Hlw Hlt eq_refl) as Hl1.
  cbv zeta in Hl1. rewrite Hl1 in Hl. injection Hl as <- <-.
  (* the second call *)
  match goal with |- loss _ _ ?s = _ => set (after := s) end.
  pose proof (advantage_estimation_weighted after train_batch cr gc sv gs m
                (gm || (gc || gs || gm)) Hb Hadv Evf Hlen Hcr eq_refl) as Hw2.
  cbv zeta in Hw2.
  change (config after) with (config self) in Hw2.
  rewrite Hfix in Hw2. specialize (Hw2 Hm0).
  fold exp_advs in Hw2.
  match type of Hw2 with _ = Some (_, ?s) => set (mid2 := s) in * end.
  pose proof (logstd_term_config train_batch mid1 mid2 t eq_refl Ht1) as Ht2.
  pose proof (loss_from_weights after train_batch _ mid2 t lp gl _ _
                Hw2 Ht2 Elp Hne Hlw Hlt eq_refl) as Hl2.
  cbv zeta in Hl2. rewrite Hl2.
  unfold after, mid1, mid2.
  cbn [config _moving_average_sqd_adv_norm explained_variance v_loss
       p_loss total_loss].
  by destruct gm, gc, gs.
Qed.

(** When the update leaves the moving average where it was, a second call
    on the same inputs returns the same loss and the same state. *)
Lemma loss_repeats_when_average_unchanged
    self train_batch lp cr sv ls m result self1 :
  beta (config self) ≠ 0 →
  aligned (config self) train_batch lp cr sv ls →
  norm_is self m →
  moving_avg_spec (moving_average_sqd_adv_norm_update_rate (config self)) m
    (adv_sq_mean_spec cr sv) = m →
  loss ev train_batch self = Some (result, self1) →
  loss ev train_batch self1 = Some (result, self1).
Proof.
  intros Hb Hal [gm Hm] Hfix Hl.
  destruct (loss_moves_norm_aligned _ _ _ _ _ _ _ _ _ Hb Hal
              ltac:(by eexists) Hl) as (Hm0 & _).
  rewrite Hfix in Hm0.
  destruct (aligned_adv _ _ _ _ _ _ Hal Hb)
    as ([d gc] & Hadv & Hd & Hvf & Hlc & Hls).
  cbn in Hd. subst d.
  destruct (value_function train_batch) as [d gs] eqn:Evf.
  cbn in Hvf. subst d.
  pose proof (aligned_nonempty _ _ _ _ _ _ Hal) as Hne.
  pose proof (aligned_logp _ _ _ _ _ _ Hal) as Hlp.
  destruct (logp_actions train_batch) as [d gl] eqn:Elp.
  cbn in Hlp. subst d.
  assert (Hcr : cr ≠ []) by (destruct cr, lp; done).
  assert (Hlen : length cr = length sv) by congruence.
  (* the first call *)
  pose proof (advantage_estimation_weighted self train_batch cr gc sv gs m gm
                Hb Hadv Evf Hlen Hcr Hm) as Hw1.
  cbv zeta in Hw1. rewrite Hfix in Hw1. specialize (Hw1 Hm0).
  match type of Hw1 with _ = Some (?w, ?s) =>
    set (exp_advs := w) in *; set (mid1 := s) in * end.
  destruct (logstd_term_expand (config self) train_batch lp cr sv ls mid1
              eq_refl Hal) as (t & Ht1 & Het & Hlt).
  assert (Hlw : length (expand (length lp) (data exp_advs)) = length lp).
  { cbn. unfold residual_spec. rewrite length_map, length_zip_with. lia. }
  pose proof (loss_from_weights self train_batch _ mid1 t lp gl _ _
                Hw1 Ht1 Elp Hne Hlw Hlt eq_refl) as Hl1.
  cbv zeta in Hl1. rewrite Hl1 in Hl. injection Hl as <- <-.
  (* the second call *)
  match goal with |- loss _ _ ?s = _ => set (after := s) end.
  pose proof (advantage_estimation_weighted after train_batch cr gc sv gs m
                (gm || (gc || gs || gm)) Hb Hadv Evf Hlen Hcr eq_refl) as Hw2.
  cbv zeta in Hw2.
  change (config after) with (config self) in Hw2.
  rewrite Hfix in Hw2. specialize (Hw2 Hm0).
  fold exp_advs in Hw2.
  match type of Hw2 with _ = Some (_, ?s) => set (mid2 := s) in * end.
  pose proof (logstd_term_config train_batch mid1 mid2 t eq_refl Ht1) as Ht2.
  pose proof (loss_from_weights after train_batch _ mid2 t lp gl _ _
                Hw2 Ht2 Elp Hne Hlw Hlt eq_refl) as Hl2.
  cbv zeta in Hl2. rewrite Hl2.
  unfold after, mid1, mid2.
  cbn [config _moving_average_sqd_adv_norm explained_variance v_loss
       p_loss total_loss].
  by destruct gm, gc, gs.
Qed.

(** C9 (as the code has it): with [beta != 0.0], a second [loss] call on
    identical inputs is computed from the moving average the first call
    stored: the first call leaves [old + rate * (mean - old)], the second
    applies the same update to that.  The second call can differ from the
    first only through this: when the first call leaves the moving average
    at the value it had, the second returns the same loss and leaves the
    same state. *)
Theorem repeated_loss_differs_only_through_the_average
    self train_batch lp cr sv ls old_avg result1 self1 result2 self2 :
  beta (config self) ≠ 0 →
  aligned (config self) train_batch lp cr sv ls →
  norm_is self old_avg →
  loss ev train_batch self = Some (result1, self1) →
  loss ev train_batch self1 = Some (result2, self2) →
  let rate := moving_average_sqd_adv_norm_update_rate (config self) in
  let avg1 := moving_avg_spec rate old_avg (adv_sq_mean_spec cr sv) in
  norm_is self1 avg1
  ∧ norm_is self2 (moving_avg_spec rate avg1 (adv_sq_mean_spec cr sv))
  ∧ (norm_is self1 old_avg → result2 = result1 ∧ self2 = self1).
Proof.
  intros Hb Hal Hm Hl1 Hl2 rate avg1.
  destruct (loss_moves_norm_aligned _ _ _ _ _ _ _ _ _ Hb Hal Hm Hl1)
    as (_ & Hc1 & Hn1 & Hal1).
  assert (Hb1 : beta (config self1) ≠ 0) by (by rewrite Hc1).
  destruct (loss_moves_norm_aligned _ _ _ _ _ _ _ _ _ Hb1 Hal1 Hn1 Hl2)
    as (_ & _ & Hn2 & _).
  rewrite Hc1 in Hn2.
  split; [exact Hn1|]. split; [exact Hn2|].
  intros [g Hold]. destruct Hn1 as [g1 Hn1].
  rewrite Hold in Hn1. injection Hn1 as Hfix _.
  pose proof (loss_repeats_when_average_unchanged self train_batch lp cr sv ls
                old_avg result1 self1 Hb Hal Hm (eq_sym Hfix) Hl1) as Hrep.
  rewrite Hrep in Hl2. by injection Hl2 as <- <-.
Qed.

(** *** A non-positive [bc_logstd_coeff] *)

Ltac step_both :=
  first [ rewrite !bind_lift
        | rewrite !bind_getattr
        | rewrite !bind_set_explained_variance
        | rewrite !bind_set__moving_average_sqd_adv_norm
        | rewrite !bind_set_v_loss
        | rewrite !bind_set_p_loss
        | rewrite !bind_set_total_loss ];
  cbn [config _moving_average_sqd_adv_norm explained_variance v_loss
       p_loss total_loss with_bc_logstd_coeff beta vf_coeff
       moving_average_sqd_adv_norm_update_rate];
  try match goal with
      | |- context [match ?o with Some _ => _ | None => _ end] =>
          destruct o; [|done]
      end.

Lemma advantage_estimation_ignores_log_std train_batch dist_log_std self :
  advantage_estimation ev (with_log_std dist_log_std train_batch) self
  = advantage_estimation ev train_batch self.
Proof. reflexivity. Qed.

Lemma advantage_estimation_ignores_coeff train_batch c self :
  advantage_estimation ev train_batch (with_bc_logstd_coeff c self)
  = (λ '(w, self1), (w, with_bc_logstd_coeff c self1))
      <$> advantage_estimation ev train_batch self.
Proof.
  unfold advantage_estimation. rewrite !bind_get_self.
  cbn [config beta moving_average_sqd_adv_norm_update_rate
       with_bc_logstd_coeff].
  case_decide.
  - repeat step_both. done.
  - repeat step_both. done.
Qed.

Lemma logstd_term_off train_batch self :
  bc_logstd_coeff (config self) <= 0 →
  logstd_term train_batch self = Some (pyfloat 0, self).
Proof.
  intros Hc. unfold logstd_term.
  rewrite bind_get_self, decide_False by lra. done.
Qed.

(** C10: with [bc_logstd_coeff <= 0.0], negative values included, the
    loss never reads the distribution's log-standard-deviation (any
    other [log_std], or none, gives the same call), and the returned
    loss, [policy_loss] and [total_loss] are those of
    [bc_logstd_coeff == 0.0]. *)
Theorem nonpositive_logstd_coeff_acts_as_zero
    self train_batch dist_log_std :
  bc_logstd_coeff (config self) <= 0 →
  loss ev (with_log_std dist_log_std train_batch) self
  = loss ev train_batch self
  ∧ loss_outcome (loss ev train_batch self)
    = loss_outcome (loss ev train_batch (with_bc_logstd_coeff 0 self)).
Proof.
  intros Hc.
  unfold loss. split.
  - unfold mbind at 1 14, M_bind at 1 14.
    rewrite advantage_estimation_ignores_log_std.
    destruct (advantage_estimation ev train_batch self)
      as [[w self1]|] eqn:Hw; [|done].
    pose proof (advantage_estimation_inv _ _ _ _ Hw) as [Hcfg _].
    assert (Hc1 : bc_logstd_coeff (config self1) <= 0)
      by (by rewrite Hcfg).
    by rewrite !(bind_run _ _ _ _ _ (logstd_term_off _ self1 Hc1)).
  - unfold mbind at 1 14, M_bind at 1 14.
    rewrite advantage_estimation_ignores_coeff.
    destruct (advantage_estimation ev train_batch self)
      as [[w self1]|] eqn:Hw; [|done].
    cbn [fmap option_fmap option_map].
    pose proof (advantage_estimation_inv _ _ _ _ Hw) as [Hcfg _].
    assert (Hc1 : bc_logstd_coeff (config self1) <= 0)
      by (by rewrite Hcfg).
    rewrite (bind_run _ _ _ _ _ (logstd_term_off _ self1 Hc1)).
    rewrite (bind_run _ _ _ _ _
               (logstd_term_off _ (with_bc_logstd_coeff 0 self1)
                  ltac:(cbn; lra))).
    rewrite !bind_get_self.
    cbn [config with_bc_logstd_coeff bc_logstd_coeff vf_coeff].
    rewrite !bind_lift, !torch_mul_pyfloat.
    replace (bc_logstd_coeff (config self1) * 0) with (0 * 0) by lra.
    repeat step_both. done.
Qed.

End LossFacts.

(** ** The scenarios *)

Section Scenarios.

Lemma weighted_aligned :
  aligned weighted_config weighted_batch [-1; -2] [2; 4] [1; 1] [].
Proof.
  split; [done|done| |].
  - intros _. by eexists.
  - cbn. lra.
Qed.

Lemma weighted_adv_sq_mean : adv_sq_mean_spec [2; 4] [1; 1] = 5.
Proof.
  unfold adv_sq_mean_spec, residual_spec, mean_list, sum_list, square.
  cbn [zip_with map foldr length INR]. lra.
Qed.

Lemma weighted_new_avg :
  moving_avg_spec 0.1 1 (adv_sq_mean_spec [2; 4] [1; 1]) = 1.4.
Proof. rewrite weighted_adv_sq_mean. unfold moving_avg_spec. lra. Qed.

Lemma weighted_norm : norm_is weighted_policy 1.
Proof. by eexists. Qed.

Lemma bc_aligned :
  aligned bc_config bc_batch [-1; -2; -0.5; -3] [] [] [].
Proof.
  split; [done|done| |].
  - cbn. intros H. by destruct H.
  - cbn. lra.
Qed.

Lemma small_norm_aligned :
  aligned small_norm_config small_norm_batch [-1] [1e-2] [0] [].
Proof.
  split; [done|done| |].
  - intros _. by eexists.
  - cbn. lra.
Qed.

Lemma small_adv_sq_mean : adv_sq_mean_spec [1e-2] [0] = 1e-4.
Proof.
  unfold adv_sq_mean_spec, residual_spec, mean_list, sum_list, square.
  cbn [zip_with map foldr length INR]. lra.
Qed.

Lemma small_new_avg :
  moving_avg_spec 0.5 1e-4 (adv_sq_mean_spec [1e-2] [0]) = 1e-4.
Proof. rewrite small_adv_sq_mean. unfold moving_avg_spec. lra. Qed.

Lemma sqrt_small : sqrt 1e-4 = 1e-2.
Proof. apply sqrt_lem_1; lra. Qed.

(** For a moving average of [1e-4] the two placements of the epsilon
    give different denominators: [1e-8 + 1e-2] against
    [sqrt(1.0001e-4)]. *)
Lemma roots_differ : 1e-8 + sqrt 1e-4 ≠ sqrt (1e-8 + 1e-4).
Proof.
  rewrite sqrt_small. intros H.
  assert (Hs : sqrt (1e-8 + 1e-4) * sqrt (1e-8 + 1e-4) = 1e-8 + 1e-4)
    by (apply sqrt_sqrt; lra).
  rewrite <- H in Hs. lra.
Qed.

Lemma settled_aligned :
  aligned settled_config settled_batch [-1] [1] [0] [].
Proof.
  split; [done|done| |].
  - intros _. by eexists.
  - cbn. lra.
Qed.

Lemma settled_adv_sq_mean : adv_sq_mean_spec [1] [0] = 1.
Proof.
  unfold adv_sq_mean_spec, residual_spec, mean_list, sum_list, square.
  cbn [zip_with map foldr length INR]. lra.
Qed.

(** Construction returns the state the initialization call leaves. *)
Lemma init_returns ev cfg dummy_batch result self :
  loss ev dummy_batch
    (fresh cfg (if decide (beta cfg ≠ 0)
                then Some (tvec [moving_average_sqd_adv_norm_start cfg] false)
                else None))
  = Some (result, self) →
  __init__ ev cfg dummy_batch = Some self.
Proof.
  intros Hl. unfold __init__, _initialize_loss_from_dummy_batch.
  fold (fresh cfg (if decide (beta cfg ≠ 0)
                   then Some (tvec [moving_average_sqd_adv_norm_start cfg] false)
                   else None)).
  rewrite (bind_run _ _ _ _ _ Hl).
  destruct (stats_fn_after_loss ev _ _ _ _ Hl) as (stats & Hs & _).
  by rewrite (bind_run _ _ _ _ _ Hs).
Qed.

End Scenarios.

(** ** The theorems on the scenarios *)

(** The weight of a residual of 1 under the updated average 1.4 is not
    the weight under the average 1 the call started from. *)
Lemma weight_under_old_average_differs :
  exp_adv_outside 1 1.4 (2 - 1) ≠ exp_adv_outside 1 1 (2 - 1).
Proof.
  unfold exp_adv_outside. intros H. apply exp_inv in H.
  assert (H1 : sqrt 1 = 1) by apply sqrt_1.
  assert (Hs : sqrt 1.4 * sqrt 1.4 = 1.4) by (apply sqrt_sqrt; lra).
  pose proof (sqrt_pos 1.4) as Hpos.
  assert (Heq : 1e-8 + sqrt 1.4 = 1e-8 + sqrt 1).
  { apply Rinv_eq_reg. apply (Rmult_eq_reg_l (2 - 1)); [|lra].
    set (d1 := 1e-8 + sqrt 1.4) in *. set (d2 := 1e-8 + sqrt 1) in *.
    unfold Rdiv in H. lra. }
  rewrite H1 in Heq. assert (Hr : sqrt 1.4 = 1) by lra.
  rewrite Hr in Hs. lra.
Qed.

(** The two-transition scenario: the average moves from 1 to 1.4 and the
    weights are [exp([1, 3] / (1e-8 + sqrt(1.4)))], not those of the
    average 1 the call started from. *)
Lemma loss_updates_moving_average_then_uses_it_witness :
  ∃ exp_advs self1 result self',
    advantage_estimation explained_variance_spec weighted_batch weighted_policy
    = Some (exp_advs, self1)
    ∧ loss explained_variance_spec weighted_batch weighted_policy
      = Some (result, self')
    ∧ norm_is self' 1.4
    ∧ data exp_advs
      = Vec (map (exp_adv_outside 1 1.4) (residual_spec [2; 4] [1; 1]))
    ∧ data exp_advs
      ≠ Vec (map (exp_adv_outside 1 1) (residual_spec [2; 4] [1; 1])).
Proof.
  destruct (loss_updates_moving_average_then_uses_it explained_variance_spec
              weighted_policy weighted_batch [-1; -2] [2; 4] [1; 1] [] 1)
    as (w & s1 & r & s' & Hw & Hl & Hn & Hd & _).
  - cbn. lra.
  - exact weighted_aligned.
  - exact weighted_norm.
  - change (0 <= moving_avg_spec 0.1 1 (adv_sq_mean_spec [2; 4] [1; 1])).
    rewrite weighted_new_avg. lra.
  - change (norm_is s' (moving_avg_spec 0.1 1 (adv_sq_mean_spec [2; 4] [1; 1])))
      in Hn.
    change (data w
            = Vec (map (exp_adv_outside 1
                          (moving_avg_spec 0.1 1 (adv_sq_mean_spec [2; 4] [1; 1])))
                       (residual_spec [2; 4] [1; 1]))) in Hd.
    rewrite weighted_new_avg in Hn, Hd.
    exists w, s1, r, s'.
    split; [done|]. split; [done|]. split; [done|]. split; [done|].
    rewrite Hd. intros [= H _]. by apply weight_under_old_average_differs.
Defined.

(** The same scenario, transition by transition. *)
Lemma exp_advs_epsilon_added_to_root_witness :
  ∃ exp_advs self1 ws,
    advantage_estimation explained_variance_spec weighted_batch weighted_policy
    = Some (exp_advs, self1)
    ∧ data exp_advs = Vec ws
    ∧ requires_grad exp_advs = false
    ∧ ws !! 1%nat = Some (exp (1 * ((4 - 1) / (1e-8 + sqrt 1.4)))).
Proof.
  destruct (exp_advs_epsilon_added_to_root explained_variance_spec
              weighted_policy weighted_batch [-1; -2] [2; 4] [1; 1] [] 1)
    as (w & s1 & ws & Hw & _ & Hd & Hg & _ & Hi).
  - cbn. lra.
  - exact weighted_aligned.
  - exact weighted_norm.
  - change (0 <= moving_avg_spec 0.1 1 (adv_sq_mean_spec [2; 4] [1; 1])).
    rewrite weighted_new_avg. lra.
  - exists w, s1, ws. split; [done|]. split; [done|]. split; [done|].
    specialize (Hi 1%nat (4 - 1) eq_refl).
    change (ws !! 1%nat
            = Some (exp (1 * ((4 - 1)
                      / (1e-8 + sqrt (moving_avg_spec 0.1 1
                                        (adv_sq_mean_spec [2; 4] [1; 1]))))))) in Hi.
    by rewrite weighted_new_avg in Hi.
Defined.

(** C2 as the specification states it fails: with moving average [1e-4]
    and residual [1e-2] the code yields [exp(1e-2 / (1e-8 + 1e-2))], the
    specification's [exp(1e-2 / sqrt(1e-8 + 1e-4))] is another number. *)
Lemma exp_advs_epsilon_under_root_refuted :
  ∃ exp_advs self1,
    advantage_estimation explained_variance_spec small_norm_batch
      small_norm_policy = Some (exp_advs, self1)
    ∧ norm_is self1 1e-4
    ∧ residual_spec [1e-2] [0] = [1e-2 - 0]
    ∧ data exp_advs ≠ Vec [exp_adv_spec 1 1e-4 (1e-2 - 0)].
Proof.
  pose proof (advantage_estimation_weighted explained_variance_spec
                small_norm_policy small_norm_batch [1e-2] false [0] true
                1e-4 false ltac:(cbn; lra) eq_refl eq_refl eq_refl
                ltac:(done) eq_refl) as Hw.
  cbv zeta in Hw.
  change (moving_average_sqd_adv_norm_update_rate (config small_norm_policy))
    with 0.5 in Hw.
  rewrite small_new_avg in Hw. specialize (Hw ltac:(lra)).
  eexists _, _. split; [exact Hw|]. split; [by eexists|]. split; [done|].
  cbn [data tvec residual_spec zip_with map]. intros [= Hi].
  unfold exp_adv_spec, exp_adv_outside in Hi. apply exp_inv in Hi.
  change (beta (config small_norm_policy)) with 1 in Hi.
  apply roots_differ.
  assert (Hpos : 0 < sqrt (1e-8 + 1e-4)) by (apply sqrt_lt_R0; lra).
  pose proof (sqrt_pos 1e-4) as Hpos'.
  apply Rinv_eq_reg.
  apply (Rmult_eq_reg_l (1e-2 - 0)); [|lra].
  set (d1 := 1e-8 + sqrt 1e-4) in *.
  set (d2 := sqrt (1e-8 + 1e-4)) in *.
  unfold Rdiv in Hi. lra.
Qed.

(** Behavioural cloning on the four-transition scenario. *)
Lemma bc_mode_has_no_value_loss_and_no_moving_average_witness :
  ∃ result self',
    loss explained_variance_spec bc_batch bc_policy = Some (result, self')
    ∧ v_loss self' = Some (pyfloat 0)
    ∧ p_loss self' = Some result
    ∧ total_loss self' = Some result
    ∧ _moving_average_sqd_adv_norm self' = None.
Proof.
  destruct (bc_mode_has_no_value_loss_and_no_moving_average
              explained_variance_spec bc_config) as [_ H].
  - reflexivity.
  - exact (H bc_policy bc_batch [-1; -2; -0.5; -3] [] [] [] eq_refl bc_aligned).
Defined.

Lemma weighted_value_loss :
  0.5 * mean_list (map (λ x, x * x) (zip_with Rminus [2; 4] [1; 1])) = 2.5.
Proof.
  unfold mean_list, sum_list.
  cbn [zip_with map foldr length INR]. lra.
Qed.

(** The two-transition scenario: [value_loss = 2.5]. *)
Lemma value_loss_is_half_mean_squared_residual_witness :
  ∃ result self',
    loss explained_variance_spec weighted_batch weighted_policy
    = Some (result, self')
    ∧ data <$> v_loss self' = Some (Sc 2.5).
Proof.
  destruct (value_loss_is_half_mean_squared_residual explained_variance_spec
              weighted_policy weighted_batch [-1; -2] [2; 4] [1; 1] [] 1)
    as (r & s' & Hl & Hv).
  - cbn. lra.
  - exact weighted_aligned.
  - exact weighted_norm.
  - change (0 <= moving_avg_spec 0.1 1 (adv_sq_mean_spec [2; 4] [1; 1])).
    rewrite weighted_new_avg. lra.
  - rewrite weighted_value_loss in Hv. by exists r, s'.
Defined.

Lemma bc_policy_loss :
  policy_loss_spec 0 (replicate 4 1) [-1; -2; -0.5; -3] (logstd_spec 0 4 [])
  = 1.625.
Proof.
  unfold policy_loss_spec, logstd_spec. rewrite decide_False by lra.
  unfold mean_list, sum_list.
  cbn [replicate zip_with foldr length INR]. lra.
Qed.

(** Behavioural cloning with log-probabilities [-1, -2, -0.5, -3]: the
    policy loss and the total loss are both 1.625. *)
Lemma policy_loss_and_total_loss_formulas_witness :
  ∃ result self',
    loss explained_variance_spec bc_batch bc_policy = Some (result, self')
    ∧ data <$> p_loss self' = Some (Sc 1.625)
    ∧ data result = Sc (1.625 + 1 * 0).
Proof.
  destruct (policy_loss_and_total_loss_formulas explained_variance_spec
              bc_policy bc_batch [-1; -2; -0.5; -3] [] [] [])
    as (w & s1 & r & s' & pl & vl & Hw & Hl & Hp & Hpl & Hv & _ & Hd).
  - exact bc_aligned.
  - cbn. intros H. by destruct H.
  - rewrite (advantage_estimation_bc explained_variance_spec bc_policy bc_batch
               eq_refl) in Hw.
    injection Hw as <- <-.
    change (pl = policy_loss_spec 0 (replicate 4 1) [-1; -2; -0.5; -3]
                   (logstd_spec 0 4 [])) in Hpl.
    rewrite bc_policy_loss in Hpl. subst pl.
    destruct (loss_bc_aligned explained_variance_spec bc_policy bc_batch
                [-1; -2; -0.5; -3] [] [] [] eq_refl bc_aligned) as [g Hl'].
    rewrite Hl' in Hl. injection Hl as <- <-.
    cbn [v_loss fmap option_fmap option_map pyfloat data] in Hv.
    injection Hv as <-.
    eexists _, _. split; [exact Hl'|]. split; [exact Hp|]. exact Hd.
Defined.

(** The two-transition scenario: the second transition has the larger
    residual (3 against 1) and a weight at least as large. *)
Lemma exp_advs_nondecreasing_in_advantage_witness :
  ∃ exp_advs self1 ws w_0 w_1,
    advantage_estimation explained_variance_spec weighted_batch weighted_policy
    = Some (exp_advs, self1)
    ∧ data exp_advs = Vec ws
    ∧ length ws = 2%nat
    ∧ ws !! 0%nat = Some w_0
    ∧ ws !! 1%nat = Some w_1
    ∧ w_1 >= w_0.
Proof.
  destruct (exp_advs_nondecreasing_in_advantage explained_variance_spec
              weighted_policy weighted_batch [-1; -2] [2; 4] [1; 1] [] 1)
    as (w & s1 & ws & Hw & Hd & Hlen & Hmono).
  - cbn. lra.
  - cbn. lra.
  - exact weighted_aligned.
  - exact weighted_norm.
  - change (0 <= moving_avg_spec 0.1 1 (adv_sq_mean_spec [2; 4] [1; 1])).
    rewrite weighted_new_avg. lra.
  - destruct (Hmono 1%nat 0%nat (4 - 1) (2 - 1) eq_refl eq_refl ltac:(lra))
      as (w_1 & w_0 & H1 & H0 & Hge).
    by exists w, s1, ws, w_0, w_1.
Defined.

(** C6 as the specification states it fails on float32: with [beta = 1]
    and moving average 1 the advantages -200 and -300 both get the weight
    [+0.0], since [exp] underflows; the larger advantage has no larger
    weight. *)
Lemma exp_advs_equal_where_exp_underflows :
  F32.ltb (F32.of_Z (-300)) (F32.of_Z (-200)) = true
  ∧ ∃ w_i w_j,
      F32.exp_advs (F32.of_Z 1) (F32.of_Z 1)
        [F32.of_Z (-200); F32.of_Z (-300)] = Some [w_i; w_j]
      ∧ w_i = S754_zero false
      ∧ w_j = S754_zero false
      ∧ F32.ltb w_j w_i = false.
Proof.
  split; [by vm_compute|].
  exists (S754_zero false), (S754_zero false).
  split; [by vm_compute|]. split; [done|]. split; [done|]. by vm_compute.
Qed.

(** The stats after a call on the two-transition scenario. *)
Lemma stats_fn_reports_the_last_loss_witness :
  ∃ result self' stats,
    loss explained_variance_spec weighted_batch weighted_policy
    = Some (result, self')
    ∧ stats_fn self' = Some (stats, self')
    ∧ dom stats = stats_keys (beta (config self'))
    ∧ stats !! "total_loss" = Some (data result).
Proof.
  destruct (loss_weighted_aligned explained_variance_spec weighted_policy
              weighted_batch [-1; -2] [2; 4] [1; 1] [] 1)
    as (s1 & r & s' & _ & Hl & _).
  - cbn. lra.
  - exact weighted_aligned.
  - exact weighted_norm.
  - change (0 <= moving_avg_spec 0.1 1 (adv_sq_mean_spec [2; 4] [1; 1])).
    rewrite weighted_new_avg. lra.
  - destruct (stats_fn_reports_the_last_loss explained_variance_spec
                weighted_policy weighted_batch r s' Hl)
      as (stats & Hs & Hdom & _ & Ht & _).
    by exists r, s', stats.
Defined.

(** Two calls on the settled scenario: the first leaves the average at
    1, and the second returns what the first returned. *)
Lemma repeated_loss_differs_only_through_the_average_witness :
  ∃ result1 self1 result2 self2,
    loss explained_variance_spec settled_batch settled_policy
    = Some (result1, self1)
    ∧ loss explained_variance_spec settled_batch self1 = Some (result2, self2)
    ∧ norm_is self1 1
    ∧ result2 = result1 ∧ self2 = self1.
Proof.
  destruct (loss_weighted_aligned explained_variance_spec settled_policy
              settled_batch [-1] [1] [0] [] 1)
    as (m1 & r1 & s1 & _ & Hl1 & _ & Hn1 & _).
  { cbn. lra. }
  { exact settled_aligned. }
  { by eexists. }
  { rewrite settled_adv_sq_mean. unfold moving_avg_spec. cbn. lra. }
  assert (Hfix : moving_avg_spec
                   (moving_average_sqd_adv_norm_update_rate
                      (config settled_policy)) 1
                   (adv_sq_mean_spec [1] [0]) = 1).
  { rewrite settled_adv_sq_mean. unfold moving_avg_spec. cbn. lra. }
  rewrite Hfix in Hn1.
  pose proof (loss_repeats_when_average_unchanged explained_variance_spec
                settled_policy settled_batch [-1] [1] [0] [] 1 r1 s1
                ltac:(cbn; lra) settled_aligned ltac:(by eexists) Hfix Hl1)
    as Hl2.
  destruct (repeated_loss_differs_only_through_the_average
              explained_variance_spec settled_policy settled_batch
              [-1] [1] [0] [] 1 r1 s1 r1 s1)
    as (_ & _ & Hsame).
  - cbn. lra.
  - exact settled_aligned.
  - by eexists.
  - exact Hl1.
  - exact Hl2.
  - destruct (Hsame Hn1) as [Hr Hs].
    by exists r1, s1, r1, s1.
Defined.

(** C9 as the specification states it fails: when the squared residual
    of the batch equals the moving average (both 1 here), the first call
    leaves the average at 1 and the second call on the same inputs returns
    the same loss and leaves the same state. *)
Lemma repeated_loss_at_settled_average_repeats :
  beta (config settled_policy) ≠ 0
  ∧ ∃ result self1,
      loss explained_variance_spec settled_batch settled_policy
      = Some (result, self1)
      ∧ loss explained_variance_spec settled_batch self1 = Some (result, self1).
Proof.
  split; [cbn; lra|].
  destruct (loss_weighted_aligned explained_variance_spec settled_policy
              settled_batch [-1] [1] [0] [] 1)
    as (m1 & r1 & s1 & _ & Hl1 & _).
  { cbn. lra. }
  { exact settled_aligned. }
  { by eexists. }
  { rewrite settled_adv_sq_mean. unfold moving_avg_spec. cbn. lra. }
  exists r1, s1. split; [exact Hl1|].
  apply (loss_repeats_at_settled_average explained_variance_spec
           settled_policy settled_batch [-1] [1] [0] [] 1 r1 s1).
  - cbn. lra.
  - exact settled_aligned.
  - by eexists.
  - exact settled_adv_sq_mean.
  - exact Hl1.
Qed.

(** A coefficient of -1 on a Gaussian distribution: dropping [log_std]
    changes nothing, and the outcome is that of a coefficient of 0. *)
Lemma nonpositive_logstd_coeff_acts_as_zero_witness :
  loss explained_variance_spec (with_log_std None gaussian_batch)
    negative_coeff_policy
  = loss explained_variance_spec gaussian_batch negative_coeff_policy
  ∧ loss_outcome (loss explained_variance_spec gaussian_batch
                    negative_coeff_policy)
    = loss_outcome (loss explained_variance_spec gaussian_batch
                      (with_bc_logstd_coeff 0 negative_coeff_policy)).
Proof.
  apply (nonpositive_logstd_coeff_acts_as_zero explained_variance_spec
           negative_coeff_policy gaussian_batch None).
  cbn. lra.
Defined.

Lemma exact_value_aligned :
  aligned settled_config exact_value_batch [-1] [1] [1] [].
Proof.
  split; [done|done| |].
  - intros _. by eexists.
  - cbn. lra.
Qed.

Lemma exact_value_adv_sq_mean : adv_sq_mean_spec [1] [1] = 0.
Proof.
  unfold adv_sq_mean_spec, residual_spec, mean_list, sum_list, square.
  cbn [zip_with map foldr length INR]. lra.
Qed.

(** Away from the settled average the returned loss may still repeat:
    with a zero residual every weight is [exp(0)], whatever the average.
    Two calls move the average from 1 to 0.5 to 0.25 and return the same
    loss value. *)
Lemma repeated_loss_with_zero_residual_repeats_the_value :
  ∃ result1 self1 result2 self2,
    loss explained_variance_spec exact_value_batch settled_policy
    = Some (result1, self1)
    ∧ loss explained_variance_spec exact_value_batch self1
      = Some (result2, self2)
    ∧ norm_is self1 0.5 ∧ norm_is self2 0.25
    ∧ data result1 = data result2.
Proof.
  destruct (loss_weighted_aligned explained_variance_spec settled_policy
              exact_value_batch [-1] [1] [1] [] 1)
    as (m1 & r1 & s1 & _ & Hl1 & Hc1 & Hn1 & _ & _ & _ & Hd1).
  { cbn. lra. }
  { exact exact_value_aligned. }
  { by eexists. }
  { rewrite exact_value_adv_sq_mean. unfold moving_avg_spec. cbn. lra. }
  change (norm_is s1 (moving_avg_spec 0.5 1 (adv_sq_mean_spec [1] [1]))) in Hn1.
  assert (E1 : moving_avg_spec 0.5 1 (adv_sq_mean_spec [1] [1]) = 0.5).
  { rewrite exact_value_adv_sq_mean. unfold moving_avg_spec. lra. }
  rewrite E1 in Hn1.
  destruct (loss_weighted_aligned explained_variance_spec s1
              exact_value_batch [-1] [1] [1] [] 0.5)
    as (m2 & r2 & s2 & _ & Hl2 & _ & Hn2 & _ & _ & _ & Hd2).
  { rewrite Hc1. cbn. lra. }
  { rewrite Hc1. exact exact_value_aligned. }
  { exact Hn1. }
  { rewrite Hc1, exact_value_adv_sq_mean. unfold moving_avg_spec. cbn. lra. }
  rewrite Hc1 in Hn2, Hd2.
  change (norm_is s2 (moving_avg_spec 0.5 0.5 (adv_sq_mean_spec [1] [1]))) in Hn2.
  assert (E2 : moving_avg_spec 0.5 0.5 (adv_sq_mean_spec [1] [1]) = 0.25).
  { rewrite exact_value_adv_sq_mean. unfold moving_avg_spec. lra. }
  rewrite E2 in Hn2.
  exists r1, s1, r2, s2.
  split; [done|]. split; [done|]. split; [done|]. split; [done|].
  assert (Hz : ∀ b d, exp (b * ((1 - 1) / d)) = exp 0).
  { intros b d. f_equal.
    replace ((1 - 1) / d) with 0 by (unfold Rdiv; lra). lra. }
  rewrite Hd1, Hd2.
  unfold residual_spec, exp_adv_outside. cbn [zip_with map].
  by rewrite !Hz.
Qed.

(** ** Beyond the claims: what else the policy does *)

Section MoreLossFacts.

Variable ev : tdata → tdata → R.

Lemma bind_fails {A B} (m : M A) (k : A → M B) self :
  m self = None → (m ≫= k) self = None.
Proof. intros H. unfold mbind, M_bind. by rewrite H. Qed.

Lemma reachable_config cfg self : reachable ev cfg self → config self = cfg.
Proof.
  induction 1 as [dummy self Hinit|train_batch self result self' _ Hc Hl].
  - unfold __init__, _initialize_loss_from_dummy_batch in Hinit.
    apply fmap_Some in Hinit as ([[] s] & Hinit & ->).
    apply bind_Some in Hinit as (r & s1 & Hl & Hinit).
    apply bind_Some in Hinit as (st & s2 & Hst & Hinit).
    injection Hinit as <-. apply stats_fn_state in Hst as ->.
    apply loss_inv in Hl as (w & s0 & p & Hw & Hc & _).
    apply advantage_estimation_inv in Hw as (Hc0 & _).
    cbn [snd]. by rewrite Hc, Hc0.
  - apply loss_inv in Hl as (w & s0 & p & Hw & Hc' & _).
    apply advantage_estimation_inv in Hw as (Hc0 & _).
    by rewrite Hc', Hc0.
Qed.

(** *** Which inputs a call reads, and what a missing one does *)

(** X1: in behavioural cloning ([beta == 0.0]) [loss] reads neither the
    advantages column nor the value function: two batches with the same
    log-probabilities and the same [log_std] give the same call,
    whatever their advantages and value estimates (missing ones
    included). *)
Theorem bc_loss_reads_only_the_distribution self batch1 batch2 :
  beta (config self) = 0 →
  logp_actions batch1 = logp_actions batch2 →
  log_std batch1 = log_std batch2 →
  loss ev batch1 self = loss ev batch2 self.
Proof.
  intros Hb Hlp Hls. unfold loss.
  rewrite (bind_run _ _ _ _ _ (advantage_estimation_bc ev self batch1 Hb)).
  rewrite (bind_run _ _ _ _ _ (advantage_estimation_bc ev self batch2 Hb)).
  rewrite Hlp. unfold logstd_term. by rewrite Hls.
Qed.

(** X2: with [beta != 0.0] a batch without the advantages column makes
    [loss] raise. *)
Theorem loss_raises_without_advantages self train_batch :
  beta (config self) ≠ 0 →
  advantages train_batch = None →
  loss ev train_batch self = None.
Proof.
  intros Hb Hadv. unfold loss. apply bind_fails.
  unfold advantage_estimation.
  rewrite bind_get_self, decide_True by done.
  by rewrite bind_lift, Hadv.
Qed.

(** X3: with [bc_logstd_coeff > 0.0] a distribution without [log_std]
    makes [loss] raise, in either mode of [beta] and whatever the rest of
    the batch. *)
Theorem loss_raises_without_log_std self train_batch :
  bc_logstd_coeff (config self) > 0 →
  log_std train_batch = None →
  loss ev train_batch self = None.
Proof.
  intros Hc Hls. unfold loss. unfold mbind at 1, M_bind at 1.
  destruct (advantage_estimation ev train_batch self)
    as [[w self1]|] eqn:Hw; [|done].
  apply advantage_estimation_inv in Hw as (Hcfg & _).
  apply bind_fails. unfold logstd_term.
  rewrite bind_get_self, Hcfg, decide_True by done.
  by rewrite bind_lift, Hls.
Qed.

Lemma broadcast_mismatch f xs ys :
  length xs ≠ length ys → length xs ≠ 1%nat → length ys ≠ 1%nat →
  broadcast f (Vec xs) (Vec ys) = None.
Proof.
  intros Hne Hx Hy. cbn. rewrite decide_False by done.
  destruct xs as [|x [|x' xs]], ys as [|y [|y' ys]]; done.
Qed.

(** X4: with [beta != 0.0], advantage targets and value estimates whose
    lengths differ, neither being 1, cannot be broadcast: [loss] raises. *)
Theorem loss_raises_on_misaligned_values
    self train_batch cumulative_rewards :
  beta (config self) ≠ 0 →
  advantages train_batch = Some cumulative_rewards →
  length (entries (data cumulative_rewards))
    ≠ length (entries (data (value_function train_batch))) →
  length (entries (data cumulative_rewards)) ≠ 1%nat →
  length (entries (data (value_function train_batch))) ≠ 1%nat →
  loss ev train_batch self = None.
Proof.
  intros Hb Hadv Hne Hc Hv. unfold loss. apply bind_fails.
  unfold advantage_estimation.
  rewrite bind_get_self, decide_True by done.
  rewrite bind_lift, Hadv, bind_lift.
  destruct cumulative_rewards as [[x|cr] gc]; [done|].
  destruct (value_function train_batch) as [[y|sv] gs]; [done|].
  unfold torch.sub, binop. cbn [data entries] in *.
  by rewrite broadcast_mismatch.
Qed.

(** *** When [stats_fn] returns *)

(** X5: [stats_fn] returns exactly when the attributes it reads are set:
    [p_loss] and [total_loss], and for [beta != 0.0] the moving average,
    [explained_variance] and [v_loss]; otherwise it raises.  When it
    returns it has not changed the policy. *)
Theorem stats_fn_returns_iff_attributes_set self :
  (is_Some (stats_fn self)
   ↔ is_Some (p_loss self) ∧ is_Some (total_loss self)
     ∧ (beta (config self) ≠ 0 →
        is_Some (_moving_average_sqd_adv_norm self)
        ∧ is_Some (explained_variance self)
        ∧ is_Some (v_loss self)))
  ∧ (∀ stats self', stats_fn self = Some (stats, self') → self' = self).
Proof.
  split; [|intros stats self'; apply stats_fn_state].
  split.
  - intros [[stats self'] H]. unfold stats_fn in H.
    rewrite bind_get_self in H.
    apply bind_Some in H as (p & s & Hp & H).
    apply getattr_Some in Hp as [Hp ->].
    apply bind_Some in H as (t & s & Ht & H).
    apply getattr_Some in Ht as [Ht ->].
    apply bind_Some in H as (st & s & Hst & _).
    split; [by eexists|]. split; [by eexists|]. intros Hb.
    rewrite decide_True in Hst by done.
    apply bind_Some in Hst as (n & s0 & Hn & Hst).
    apply getattr_Some in Hn as [Hn ->].
    apply bind_Some in Hst as (e & s0 & He & Hst).
    apply getattr_Some in He as [He ->].
    apply bind_Some in Hst as (v & s0 & Hv & _).
    apply getattr_Some in Hv as [Hv ->].
    split; [by eexists|]. split; by eexists.
  - intros ([p Hp] & [t Ht] & H).
    destruct (decide (beta (config self) = 0)) as [Hb|Hb].
    + rewrite (stats_fn_bc self p t Hb Hp Ht). by eexists.
    + destruct (H Hb) as ([n Hn] & [e He] & [v Hv]).
      rewrite (stats_fn_weighted self p t n e v Hb Hp Ht Hn He Hv). by eexists.
Qed.

(** X6: on every policy that construction and [loss] calls produce,
    [stats_fn] returns, with exactly the keys of the policy's mode. *)
Theorem stats_fn_returns_on_every_reachable_policy cfg self :
  reachable ev cfg self →
  ∃ stats,
    stats_fn self = Some (stats, self)
    ∧ dom stats = stats_keys (beta cfg).
Proof.
  intros Hr. pose proof (reachable_config cfg self Hr) as Hcfg.
  assert (∃ train_batch self0 result,
            loss ev train_batch self0 = Some (result, self))
    as (b & self0 & result & Hl).
  { destruct Hr as [dummy self Hinit|train_batch self0 result self' _ Hl].
    - unfold __init__, _initialize_loss_from_dummy_batch in Hinit.
      apply fmap_Some in Hinit as ([[] s] & Hinit & ->).
      apply bind_Some in Hinit as (r & s1 & Hl & Hinit).
      apply bind_Some in Hinit as (st & s2 & Hst & Hinit).
      injection Hinit as <-. apply stats_fn_state in Hst as ->.
      by eexists _, _, _.
    - by eexists _, _, _. }
  destruct (attributes_after_loss ev _ _ _ _ Hl) as (p & Hp & Ht & H).
  subst cfg. unfold stats_keys.
  destruct (decide (beta (config self) = 0)) as [Hb|Hb].
  - rewrite (stats_fn_bc self p result Hb Hp Ht).
    eexists. split; [done|].
    rewrite decide_False by (intros Hb'; by apply Hb').
    unfold convert_to_numpy.
    rewrite dom_fmap_L, !dom_insert_L, dom_empty_L. set_solver.
  - destruct (H Hb) as (norm & e & v & Hn & He & Hv).
    rewrite (stats_fn_weighted self p result norm e v Hb Hp Ht Hn He Hv).
    eexists. split; [done|].
    rewrite decide_True by done.
    unfold convert_to_numpy.
    rewrite dom_fmap_L, !dom_insert_L, dom_empty_L. set_solver.
Qed.

(** *** The moving average over calls *)

(** X9: a policy built with a starting value [>= 0] and an update rate in
    (0,1] runs through any sequence of aligned batches without a fault:
    no call raises and the square root never meets a negative average. *)
Theorem training_on_aligned_batches_never_faults cfg self batches :
  0 <= moving_average_sqd_adv_norm_start cfg →
  0 < moving_average_sqd_adv_norm_update_rate cfg <= 1 →
  reachable ev cfg self →
  Forall (λ train_batch,
            ∃ lp cr sv ls, aligned cfg train_batch lp cr sv ls) batches →
  ∃ self', train ev batches self = Some self' ∧ reachable ev cfg self'.
Proof.
  intros Hstart Hrate Hr Hall. revert self Hr.
  induction Hall as [|b batches (lp & cr & sv & ls & Hal) _ IH];
    intros self Hr.
  - by exists self.
  - destruct (loss_returns_on_reachable ev cfg self b lp cr sv ls
                Hstart Hrate Hr Hal) as (result & self1 & Hl).
    destruct (IH self1) as (self' & Ht & Hr').
    { by eapply reachable_loss. }
    exists self'. cbn [train]. by rewrite Hl.
Qed.

(** *** The weights and the two losses *)

(** X11: with [beta != 0.0] there is one weight [exp_advs[i]] per
    transition and no weight is negative; on a transition whose residual
    is 0 the weight is 1; for [beta > 0] the weight is at least 1 where
    the residual is [>= 0] and at most 1 where it is [<= 0], and for
    [beta < 0] the other way round. *)
Theorem exp_advs_nonnegative_and_neutral_at_zero_residual
    self train_batch lp cr sv ls old_avg :
  beta (config self) ≠ 0 →
  aligned (config self) train_batch lp cr sv ls →
  norm_is self old_avg →
  0 <= moving_avg_spec
         (moving_average_sqd_adv_norm_update_rate (config self)) old_avg
         (adv_sq_mean_spec cr sv) →
  ∃ exp_advs self1 ws,
    advantage_estimation ev train_batch self = Some (exp_advs, self1)
    ∧ data exp_advs = Vec ws
    ∧ length ws = length lp
    ∧ ∀ i adv,
        zip_with Rminus cr sv !! i = Some adv →
        ∃ w,
          ws !! i = Some w
          ∧ 0 <= w
          ∧ (adv = 0 → w = 1)
          ∧ (0 < beta (config self) →
             (0 <= adv → 1 <= w) ∧ (adv <= 0 → w <= 1))
          ∧ (beta (config self) < 0 →
             (0 <= adv → w <= 1) ∧ (adv <= 0 → 1 <= w)).
Proof.
  intros Hb Hal Hm Hnew.
  destruct (loss_weighted_aligned ev self train_batch lp cr sv ls old_avg
              Hb Hal Hm Hnew) as (self1 & _ & _ & Hw & _).
  destruct (aligned_adv _ _ _ _ _ _ Hal Hb) as (t & _ & _ & _ & Hlc & Hls).
  eexists _, self1, _. split; [exact Hw|]. split; [done|]. split.
  { unfold residual_spec. rewrite length_map, length_zip_with. lia. }
  intros i adv Hi. eexists. unfold residual_spec.
  rewrite list_lookup_fmap, Hi. split; [done|].
  unfold exp_adv_outside.
  set (d := 1e-8 + sqrt _).
  assert (Hd : 0 < d).
  { unfold d. pose proof (sqrt_pos
      (moving_avg_spec (moving_average_sqd_adv_norm_update_rate (config self))
         old_avg (adv_sq_mean_spec cr sv))). lra. }
  assert (Hi' : 0 < / d) by (by apply Rinv_0_lt_compat).
  set (b := beta (config self)) in *.
  assert (Hmono : ∀ x, 0 <= x → 1 <= exp x).
  { intros x [Hx | <-]; [|rewrite exp_0; lra].
    left. rewrite <- exp_0. by apply exp_increasing. }
  assert (Hanti : ∀ x, x <= 0 → exp x <= 1).
  { intros x [Hx | ->]; [|rewrite exp_0; lra].
    left. rewrite <- exp_0. by apply exp_increasing. }
  split; [left; apply exp_pos|]. split; [|split].
  - intros ->. unfold Rdiv. rewrite Rmult_0_l, Rmult_0_r. apply exp_0.
  - intros Hpos. split; intros Hadv.
    + apply Hmono. assert (0 <= adv / d) by (unfold Rdiv; nra). nra.
    + apply Hanti. assert (adv / d <= 0) by (unfold Rdiv; nra). nra.
  - intros Hneg. split; intros Hadv.
    + apply Hanti. assert (0 <= adv / d) by (unfold Rdiv; nra). nra.
    + apply Hmono. assert (adv / d <= 0) by (unfold Rdiv; nra). nra.
Qed.

Lemma exact_residuals_have_zero_mean_square cr :
  cr ≠ [] → adv_sq_mean_spec cr cr = 0.
Proof.
  intros Hne. unfold adv_sq_mean_spec, mean_list, residual_spec.
  assert (Hs : sum_list (map square (zip_with Rminus cr cr)) = 0).
  { clear Hne. induction cr as [|c cr IH]; [done|].
    cbn. unfold sum_list in IH. rewrite IH. unfold square. lra. }
  rewrite Hs. unfold Rdiv. lra.
Qed.

(** X12: with [beta != 0.0] the value loss is never negative, and it is 0
    when the value estimates equal the advantage targets on every
    transition. *)
Theorem value_loss_nonnegative_and_zero_when_exact
    self train_batch lp cr sv ls old_avg :
  beta (config self) ≠ 0 →
  aligned (config self) train_batch lp cr sv ls →
  norm_is self old_avg →
  0 <= moving_avg_spec
         (moving_average_sqd_adv_norm_update_rate (config self)) old_avg
         (adv_sq_mean_spec cr sv) →
  ∃ result self' v g,
    loss ev train_batch self = Some (result, self')
    ∧ v_loss self' = Some (Tensor (Sc v) g)
    ∧ 0 <= v
    ∧ (cr = sv → v = 0).
Proof.
  intros Hb Hal Hm Hnew.
  destruct (loss_weighted_aligned ev self train_batch lp cr sv ls old_avg
              Hb Hal Hm Hnew)
    as (self1 & result & self' & _ & Hl & _ & _ & [g Hv] & _).
  destruct (aligned_adv _ _ _ _ _ _ Hal Hb) as (t & _ & _ & _ & Hlc & Hls).
  pose proof (aligned_nonempty _ _ _ _ _ _ Hal) as Hne.
  eexists result, self', _, g. split; [exact Hl|]. split; [exact Hv|].
  pose proof (mean_squares_nonneg (residual_spec cr sv)) as Ha.
  fold (adv_sq_mean_spec cr sv) in Ha.
  split; [lra|].
  intros <-. rewrite exact_residuals_have_zero_mean_square; [lra|].
  intros ->. destruct lp; [done|]. cbn in Hlc. lia.
Qed.

Lemma mean_list_ext_map f xs :
  (∀ x, f x = x) → mean_list (map f xs) = mean_list xs.
Proof.
  intros Hf. unfold mean_list. rewrite length_map. f_equal.
  induction xs as [|x xs IH]; [done|]. cbn. rewrite Hf. by f_equal.
Qed.

(** X13: in behavioural cloning with [bc_logstd_coeff <= 0.0] the loss is
    the negative mean log-probability of the batch's actions: on
    log-probabilities [lp], [loss] returns [-mean(lp)], stored as both
    [p_loss] and [total_loss]. *)
Theorem bc_loss_is_negative_mean_log_likelihood self train_batch lp :
  beta (config self) = 0 →
  bc_logstd_coeff (config self) <= 0 →
  data (logp_actions train_batch) = Vec lp →
  lp ≠ [] →
  ∃ result self',
    loss ev train_batch self = Some (result, self')
    ∧ data result = Sc (- mean_list lp)
    ∧ p_loss self' = Some result
    ∧ total_loss self' = Some result.
Proof.
  intros Hb Hc Hlp Hne.
  assert (Hal : aligned (config self) train_batch lp [] [] []).
  { split; [done|done| |]; intros H; [done|lra]. }
  destruct (loss_bc_aligned ev self train_batch lp [] [] [] Hb Hal)
    as [g Hl].
  eexists _, _. split; [exact Hl|]. split; [|done].
  cbn [data]. f_equal. unfold policy_loss_spec, logstd_spec.
  rewrite decide_False by lra. f_equal.
  rewrite zip_with_replicate_r.
  rewrite <- (length_map (λ x, x + bc_logstd_coeff (config self) * 0) lp)
    at 1.
  rewrite zip_with_replicate_l, <- list_fmap_compose.
  apply mean_list_ext_map. intros x. cbn. lra.
Qed.

(** *** Gradient tracking *)

Lemma logstd_term_requires_grad train_batch lp cr sv ls self t :
  aligned (config self) train_batch lp cr sv ls →
  logstd_term train_batch self = Some (t, self) →
  requires_grad t = logstd_requires_grad (config self) train_batch.
Proof.
  intros Hal. unfold logstd_term, logstd_requires_grad.
  rewrite bind_get_self. case_decide as Hc; [|by intros [= <-]].
  destruct (aligned_logstd _ _ _ _ _ _ Hal Hc) as ([rs g] & Hls & Hrows & _ & Hne).
  cbn in Hrows. subst rs. rewrite bind_lift, Hls. unfold lift.
  rewrite torch_mean_dim1_rows by done. cbn. by intros [= <-].
Qed.

(** X14: with [beta != 0.0] the policy loss carries a gradient only
    through the action distribution: its [requires_grad] is that of the
    log-probabilities or of the [log_std] the call reads, never that of
    the value estimates, since the weights are detached; the total loss
    also requires grad through the value loss. *)
Theorem policy_loss_gradient_comes_from_the_distribution
    self train_batch lp cr sv ls old_avg :
  beta (config self) ≠ 0 →
  aligned (config self) train_batch lp cr sv ls →
  norm_is self old_avg →
  0 <= moving_avg_spec
         (moving_average_sqd_adv_norm_update_rate (config self)) old_avg
         (adv_sq_mean_spec cr sv) →
  ∃ result self' p cumulative_rewards,
    loss ev train_batch self = Some (result, self')
    ∧ p_loss self' = Some p
    ∧ advantages train_batch = Some cumulative_rewards
    ∧ requires_grad p
      = requires_grad (logp_actions train_batch)
        || logstd_requires_grad (config self) train_batch
    ∧ requires_grad result
      = requires_grad p
        || (requires_grad cumulative_rewards
            || requires_grad (value_function train_batch)).
Proof.
  intros Hb Hal [gm Hm] Hnew.
  destruct (aligned_adv _ _ _ _ _ _ Hal Hb)
    as ([d gc] & Hadv & Hd & Hvf & Hlc & Hls).
  cbn in Hd. subst d.
  destruct (value_function train_batch) as [d gs] eqn:Evf.
  cbn in Hvf. subst d.
  pose proof (aligned_nonempty _ _ _ _ _ _ Hal) as Hne.
  pose proof (aligned_logp _ _ _ _ _ _ Hal) as Hlp.
  destruct (logp_actions train_batch) as [d gl] eqn:Elp.
  cbn in Hlp. subst d.
  assert (Hcr : cr ≠ []) by (destruct cr, lp; done).
  pose proof (advantage_estimation_weighted ev self train_batch cr gc sv gs
                old_avg gm Hb Hadv Evf ltac:(congruence) Hcr Hm Hnew) as Hw.
  match type of Hw with _ = Some (?w, ?s) =>
    set (exp_advs := w) in *; set (self1 := s) in * end.
  destruct (logstd_term_expand (config self) train_batch lp cr sv ls self1
              eq_refl Hal) as (t & Ht & Het & Hlt).
  pose proof (logstd_term_requires_grad train_batch lp cr sv ls self1 t
                Hal Ht) as Hg.
  assert (Hlw : length (expand (length lp) (data exp_advs)) = length lp).
  { cbn. unfold residual_spec. rewrite length_map, length_zip_with. lia. }
  pose proof (loss_from_weights ev self train_batch _ self1 t lp gl _ _
                Hw Ht Elp Hne Hlw Hlt eq_refl) as Hl.
  cbv zeta in Hl.
  eexists _, _, _, _. split; [exact Hl|]. split; [done|]. split; [done|].
  cbn. by rewrite Hg.
Qed.

(** X15: the moving average is created with [requires_grad=False], but
    the in-place update takes the flag of its operand: after a [loss]
    call with [beta != 0.0] the stored average requires grad as soon as
    the value estimates (or the advantage targets, or the average before)
    do. *)
Theorem moving_average_takes_requires_grad_from_the_update
    self train_batch lp cr sv ls old cumulative_rewards result self' :
  beta (config self) ≠ 0 →
  aligned (config self) train_batch lp cr sv ls →
  _moving_average_sqd_adv_norm self = Some old →
  (∃ m, data old = Vec [m]) →
  advantages train_batch = Some cumulative_rewards →
  loss ev train_batch self = Some (result, self') →
  ∃ updated,
    _moving_average_sqd_adv_norm self' = Some updated
    ∧ requires_grad updated
      = requires_grad old
        || requires_grad cumulative_rewards
        || requires_grad (value_function train_batch).
Proof.
  intros Hb Hal Hold [m Hdm] Hadv Hl.
  destruct old as [d gm]. cbn in Hdm. subst d.
  destruct (loss_moves_norm_aligned ev _ _ _ _ _ _ _ _ _ Hb Hal
              ltac:(by eexists) Hl) as (Hnew & _).
  destruct (aligned_adv _ _ _ _ _ _ Hal Hb)
    as ([d gc] & Hadv' & Hd & Hvf & Hlc & Hls).
  rewrite Hadv in Hadv'. injection Hadv' as ->.
  cbn in Hd. subst d.
  destruct (value_function train_batch) as [d gs] eqn:Evf.
  cbn in Hvf. subst d.
  pose proof (aligned_nonempty _ _ _ _ _ _ Hal) as Hne.
  assert (Hcr : cr ≠ []) by (destruct cr, lp; done).
  pose proof (advantage_estimation_weighted ev self train_batch cr gc sv gs
                m gm Hb Hadv Evf ltac:(congruence) Hcr Hold Hnew) as Hw.
  apply loss_inv in Hl as (w & s1 & p & Hw' & _ & Hn & _).
  rewrite Hw in Hw'. injection Hw' as _ <-.
  eexists. split; [exact Hn|]. cbn. by destruct gm, gc, gs.
Qed.

(** *** The reported statistics *)

(** X16: the stats reported after a [loss] call on an aligned batch are
    consistent with one another: [total_loss] is [policy_loss] in
    behavioural cloning, and [policy_loss + vf_coeff * vf_loss] with a
    non-negative [vf_loss] when [beta != 0.0]. *)
Theorem reported_losses_add_up
    self train_batch lp cr sv ls result self' stats :
  aligned (config self) train_batch lp cr sv ls →
  (beta (config self) ≠ 0 → ∃ old_avg, norm_is self old_avg) →
  loss ev train_batch self = Some (result, self') →
  stats_fn self' = Some (stats, self') →
  ∃ policy_loss total,
    stats !! "policy_loss" = Some (Sc policy_loss)
    ∧ stats !! "total_loss" = Some (Sc total)
    ∧ (beta (config self) = 0 → total = policy_loss)
    ∧ (beta (config self) ≠ 0 →
       ∃ value_loss,
         stats !! "vf_loss" = Some (Sc value_loss)
         ∧ 0 <= value_loss
         ∧ total = policy_loss + vf_coeff (config self) * value_loss).
Proof.
  intros Hal Hnorm Hl Hs.
  destruct (decide (beta (config self) = 0)) as [Hb|Hb].
  - destruct (loss_bc_aligned ev self train_batch lp cr sv ls Hb Hal)
      as [g Hl'].
    rewrite Hl' in Hl. injection Hl as <- <-.
    erewrite stats_fn_bc in Hs; [|exact Hb|reflexivity|reflexivity].
    injection Hs as <-.
    eexists _, _. unfold convert_to_numpy.
    split; [by simplify_map_eq|]. split; [by simplify_map_eq|].
    split; [done|]. intros Hb'. by destruct Hb'.
  - destruct (Hnorm Hb) as [old_avg Hm].
    destruct (loss_moves_norm_aligned ev _ _ _ _ _ _ _ _ _ Hb Hal Hm Hl)
      as (Hnew & _).
    destruct (loss_weighted_aligned ev self train_batch lp cr sv ls old_avg
                Hb Hal Hm Hnew)
      as (self1 & r & s' & _ & Hl' & Hc & [gn Hn] & [gv Hv] & [gp Hp]
          & Ht & Hd).
    rewrite Hl' in Hl. injection Hl as -> ->.
    destruct (attributes_after_loss ev _ _ _ _ Hl')
      as (p & _ & _ & H).
    destruct (H ltac:(by rewrite Hc)) as (norm & e & v & _ & He & _).
    rewrite (stats_fn_weighted self' _ result _ e _ ltac:(by rewrite Hc)
               Hp Ht Hn He Hv) in Hs.
    injection Hs as <-.
    destruct result as [dr gr]. cbn in Hd. subst dr.
    eexists _, _. unfold convert_to_numpy.
    split; [by simplify_map_eq|]. split; [by simplify_map_eq|].
    split; [done|]. intros _.
    eexists. split; [by simplify_map_eq|]. split; [|done].
    pose proof (mean_squares_nonneg (residual_spec cr sv)) as Ha.
    fold (adv_sq_mean_spec cr sv) in Ha. lra.
Qed.

End MoreLossFacts.

(** ** Every average the policy stores *)

Section AverageFacts.

Variable ev : tdata → tdata → R.

Ltac step_inv H :=
  let x := fresh "x" in
  let s := fresh "s" in
  let Hs := fresh "Hstep" in
  apply bind_Some in H as (x & s & Hs & H);
  first [ apply lift_Some in Hs as [Hs ->]
        | apply getattr_Some in Hs as [Hs ->]
        | injection Hs as <- <- ].

Lemma bind_nested {A B C} (m : M A) (f : A → M B) (g : B → M C) self :
  ((m ≫= f) ≫= g) self = (m ≫= (λ x, f x ≫= g)) self.
Proof. unfold mbind, M_bind. by destruct (m self) as [[x self']|]. Qed.

Ltac step_split :=
  rewrite ?bind_nested;
  first [ rewrite !bind_lift
        | rewrite !bind_getattr
        | rewrite !bind_set_explained_variance
        | rewrite !bind_set__moving_average_sqd_adv_norm
        | rewrite !bind_set_v_loss
        | rewrite !bind_ret ];
  cbn [config _moving_average_sqd_adv_norm explained_variance v_loss
       p_loss total_loss];
  try match goal with
      | |- context [match ?o with Some _ => _ | None => _ end] =>
          destruct o; [|done]
      end.

(** The branch on [beta] is its update followed by its weights. *)
Lemma advantage_estimation_splits train_batch self :
  advantage_estimation ev train_batch self
  = (moving_average_update ev train_batch ≫= weights_after_update) self.
Proof.
  unfold advantage_estimation, moving_average_update.
  rewrite bind_nested, !bind_get_self.
  case_decide.
  - repeat step_split. unfold weights_after_update.
    rewrite bind_get_self. repeat step_split. done.
  - by rewrite bind_ret.
Qed.

Lemma moving_average_update_inv train_batch self locals mid :
  moving_average_update ev train_batch self = Some (locals, mid) →
  config mid = config self
  ∧ ((beta (config self) = 0 ∧ mid = self)
     ∨ (beta (config self) ≠ 0
        ∧ ∃ adv_squared_mean old diff step updated,
            (∃ a, data adv_squared_mean = Sc a ∧ 0 <= a)
            ∧ _moving_average_sqd_adv_norm self = Some old
            ∧ torch.sub adv_squared_mean old = Some diff
            ∧ torch.mul
                (pyfloat (moving_average_sqd_adv_norm_update_rate (config self)))
                diff = Some step
            ∧ torch.add_ old step = Some updated
            ∧ _moving_average_sqd_adv_norm mid = Some updated)).
Proof.
  unfold moving_average_update. intros H.
  rewrite bind_get_self in H. case_decide as Hb.
  - repeat step_inv H. injection H as <- <-.
    cbn [config _moving_average_sqd_adv_norm] in *.
    split; [done|]. right. split; [done|].
    exists x2, x4, x5, x6, x7.
    repeat split; try done.
    by eapply mean_of_square_nonneg.
  - injection H as <- <-. split; [done|]. by left.
Qed.

Lemma weights_after_update_keeps_norm locals mid w self1 :
  weights_after_update locals mid = Some (w, self1) →
  config self1 = config mid
  ∧ _moving_average_sqd_adv_norm self1 = _moving_average_sqd_adv_norm mid.
Proof.
  unfold weights_after_update. intros H.
  destruct locals as [[adv adv_squared_mean]|].
  - rewrite bind_get_self in H. repeat step_inv H. by injection H as <- <-.
  - step_inv H. by injection H as <- <-.
Qed.

Lemma tracked_config cfg self : tracked ev cfg self → config self = cfg.
Proof. by destruct 1. Qed.

(** A [loss] call that returns is an update followed by changes to other
    attributes: the states of returning calls are among the tracked. *)
Lemma loss_tracked cfg train_batch self result self' :
  tracked ev cfg self →
  loss ev train_batch self = Some (result, self') →
  tracked ev cfg self'.
Proof.
  intros Ht Hl.
  apply loss_inv in Hl as (w & s1 & p & Hw & Hc & Hn & _).
  rewrite advantage_estimation_splits in Hw.
  apply bind_Some in Hw as (locals & mid & Hu & Hw).
  apply weights_after_update_keeps_norm in Hw as [Hc1 Hn1].
  pose proof (moving_average_update_inv _ _ _ _ Hu) as [Hcm _].
  apply (tracked_update ev cfg train_batch self locals mid); [done|done| |].
  - rewrite Hc, Hc1, Hcm. by apply tracked_config.
  - by rewrite Hn, Hn1.
Qed.

Lemma reachable_tracked cfg self : reachable ev cfg self → tracked ev cfg self.
Proof.
  induction 1 as [dummy self Hinit|train_batch self result self' _ IH Hl].
  - unfold __init__, _initialize_loss_from_dummy_batch in Hinit.
    apply fmap_Some in Hinit as ([[] s] & Hinit & ->).
    apply bind_Some in Hinit as (r & s1 & Hl & Hinit).
    apply bind_Some in Hinit as (st & s2 & Hst & Hinit).
    injection Hinit as <-. apply stats_fn_state in Hst as ->.
    cbn [snd]. eapply loss_tracked; [|exact Hl].
    by apply tracked_allocation.
  - by eapply loss_tracked.
Qed.



(** The update on tensors aligned by index, whatever the sign of the
    average it stores. *)
Lemma moving_average_update_aligned self train_batch cr gc sv gs m gm :
  beta (config self) ≠ 0 →
  advantages train_batch = Some (tvec cr gc) →
  value_function train_batch = tvec sv gs →
  length cr = length sv → cr ≠ [] →
  _moving_average_sqd_adv_norm self = Some (tvec [m] gm) →
  ∃ locals mid,
    moving_average_update ev train_batch self = Some (locals, mid)
    ∧ config mid = config self
    ∧ norm_is mid
        (moving_avg_spec
           (moving_average_sqd_adv_norm_update_rate (config self)) m
           (adv_sq_mean_spec cr sv)).
Proof.
  intros Hb Hadv Hvf Hlen Hne Hm.
  assert (Hsq : map square (zip_with Rminus cr sv) ≠ []).
  { destruct cr, sv; done. }
  unfold moving_average_update.
  rewrite bind_get_self, decide_True by done.
  rewrite bind_lift, Hadv, Hvf.
  unfold torch.sub. rewrite bind_lift, binop_same by done.
  rewrite bind_lift, torch_pow_square.
  rewrite bind_lift, torch_mean_vec by done.
  rewrite bind_lift. unfold explained_variance_of.
  cbn [torch.mean data requires_grad tvec].
  rewrite bind_set_explained_variance.
  rewrite bind_getattr. cbn [_moving_average_sqd_adv_norm]. rewrite Hm.
  unfold pyfloat, torch.mul.
  rewrite bind_lift, binop_sc_vec, bind_lift, binop_sc_vec.
  cbn [map]. rewrite bind_lift, torch_add__single.
  rewrite bind_set__moving_average_sqd_adv_norm.
  eexists _, _. split; [done|]. split; [done|]. by eexists.
Qed.

End AverageFacts.

(** With an update rate of 2 the policy stores a negative average: from
    the average 1, a batch whose value estimates are exact (mean squared
    residual 0) gives [1 + 2 * (0 - 1) = -1].  The model's [loss] faults on
    its square root; the update itself is tracked. *)
Lemma overshooting_rate_stores_a_negative_average :
  ∃ self,
    tracked explained_variance_spec overshooting_config self
    ∧ norm_is self (-1)
    ∧ loss explained_variance_spec exact_value_batch overshooting_policy = None.
Proof.
  destruct (moving_average_update_aligned explained_variance_spec
              overshooting_policy exact_value_batch [1] false [1] true 1 false)
    as (locals & mid & Hu & Hc & Hn); try done.
  { cbn. lra. }
  assert (E : moving_avg_spec
                (moving_average_sqd_adv_norm_update_rate
                   (config overshooting_policy)) 1
                (adv_sq_mean_spec [1] [1]) = -1).
  { rewrite exact_value_adv_sq_mean. unfold moving_avg_spec. cbn. lra. }
  rewrite E in Hn.
  exists mid. split; [|split; [done|]].
  - apply (tracked_update _ _ exact_value_batch overshooting_policy locals mid);
      try done.
    apply tracked_allocation; [done|].
    unfold allocated_norm. cbn [beta overshooting_config overshooting_policy fresh
      _moving_average_sqd_adv_norm moving_average_sqd_adv_norm_start].
    by rewrite decide_True by lra.
  - unfold loss. apply bind_fails.
    apply (advantage_estimation_faults_on_negative explained_variance_spec
             overshooting_policy exact_value_batch [1] false [1] true 1 false);
      try done.
    + cbn. lra.
    + rewrite E. lra.
Qed.


(** ** The further theorems on the scenarios *)

Lemma weighted_beta : beta (config weighted_policy) ≠ 0.
Proof. cbn. lra. Qed.

Lemma weighted_new_avg_nonneg :
  0 <= moving_avg_spec
         (moving_average_sqd_adv_norm_update_rate (config weighted_policy)) 1
         (adv_sq_mean_spec [2; 4] [1; 1]).
Proof.
  change (0 <= moving_avg_spec 0.1 1 (adv_sq_mean_spec [2; 4] [1; 1])).
  rewrite weighted_new_avg. lra.
Qed.

Lemma weighted_loss_returns :
  ∃ result self',
    loss explained_variance_spec weighted_batch weighted_policy
    = Some (result, self').
Proof.
  destruct (loss_weighted_aligned explained_variance_spec weighted_policy
              weighted_batch [-1; -2] [2; 4] [1; 1] [] 1 weighted_beta
              weighted_aligned weighted_norm weighted_new_avg_nonneg)
    as (s1 & r & s' & _ & Hl & _).
  by exists r, s'.
Qed.

Lemma weighted_reachable :
  ∃ self, reachable explained_variance_spec weighted_config self.
Proof.
  destruct weighted_loss_returns as (r & s' & Hl).
  exists s'. apply (reachable_init _ _ weighted_batch).
  apply (init_returns _ _ _ r). cbn [beta weighted_config].
  rewrite decide_True by lra. exact Hl.
Qed.

(** Behavioural cloning gives the same call with and without an
    advantages column. *)
Lemma bc_loss_reads_only_the_distribution_witness :
  loss explained_variance_spec bc_batch bc_policy
  = loss explained_variance_spec bc_batch_with_advantages bc_policy.
Proof.
  apply (bc_loss_reads_only_the_distribution explained_variance_spec
           bc_policy bc_batch bc_batch_with_advantages); reflexivity.
Defined.

Lemma loss_raises_without_advantages_witness :
  loss explained_variance_spec batch_without_advantages weighted_policy = None.
Proof.
  apply (loss_raises_without_advantages explained_variance_spec
           weighted_policy batch_without_advantages).
  - exact weighted_beta.
  - reflexivity.
Defined.

Lemma loss_raises_without_log_std_witness :
  loss explained_variance_spec bc_batch logstd_policy = None.
Proof.
  apply (loss_raises_without_log_std explained_variance_spec
           logstd_policy bc_batch).
  - cbn. lra.
  - reflexivity.
Defined.

Lemma loss_raises_on_misaligned_values_witness :
  loss explained_variance_spec misaligned_batch weighted_policy = None.
Proof.
  apply (loss_raises_on_misaligned_values explained_variance_spec
           weighted_policy misaligned_batch (tvec [2; 4; 6] false)).
  - exact weighted_beta.
  - reflexivity.
  - cbn. lia.
  - cbn. lia.
  - cbn. lia.
Defined.

Lemma stats_fn_returns_on_every_reachable_policy_witness :
  ∃ self stats,
    reachable explained_variance_spec weighted_config self
    ∧ stats_fn self = Some (stats, self)
    ∧ dom stats = stats_keys (beta weighted_config).
Proof.
  destruct weighted_reachable as [self Hr].
  destruct (stats_fn_returns_on_every_reachable_policy
              explained_variance_spec weighted_config self Hr)
    as (stats & Hs & Hd).
  by exists self, stats.
Defined.

Lemma training_on_aligned_batches_never_faults_witness :
  ∃ self self',
    reachable explained_variance_spec weighted_config self
    ∧ train explained_variance_spec [weighted_batch; weighted_batch] self
      = Some self'
    ∧ reachable explained_variance_spec weighted_config self'.
Proof.
  destruct weighted_reachable as [self Hr].
  destruct (training_on_aligned_batches_never_faults explained_variance_spec
              weighted_config self [weighted_batch; weighted_batch])
    as (self' & Ht & Hr').
  - cbn. lra.
  - cbn. lra.
  - exact Hr.
  - repeat constructor;
      exists [-1; -2], [2; 4], [1; 1], []; exact weighted_aligned.
  - by exists self, self'.
Defined.

Lemma exp_advs_nonnegative_and_neutral_at_zero_residual_witness :
  ∃ exp_advs self1 ws,
    advantage_estimation explained_variance_spec weighted_batch weighted_policy
    = Some (exp_advs, self1)
    ∧ data exp_advs = Vec ws
    ∧ length ws = 2%nat
    ∧ ∃ w, ws !! 1%nat = Some w ∧ 1 <= w.
Proof.
  destruct (exp_advs_nonnegative_and_neutral_at_zero_residual
              explained_variance_spec weighted_policy weighted_batch
              [-1; -2] [2; 4] [1; 1] [] 1)
    as (w & s1 & ws & Hw & Hd & Hlen & H).
  - exact weighted_beta.
  - exact weighted_aligned.
  - exact weighted_norm.
  - exact weighted_new_avg_nonneg.
  - exists w, s1, ws. split; [done|]. split; [done|]. split; [done|].
    destruct (H 1%nat (4 - 1) eq_refl) as (w1 & Hw1 & _ & _ & Hpos & _).
    exists w1. split; [done|]. apply Hpos; [cbn; lra|lra].
Defined.

Lemma value_loss_nonnegative_and_zero_when_exact_witness :
  ∃ result self' v g,
    loss explained_variance_spec weighted_batch weighted_policy
    = Some (result, self')
    ∧ v_loss self' = Some (Tensor (Sc v) g)
    ∧ 0 <= v.
Proof.
  destruct (value_loss_nonnegative_and_zero_when_exact explained_variance_spec
              weighted_policy weighted_batch [-1; -2] [2; 4] [1; 1] [] 1)
    as (r & s' & v & g & Hl & Hv & Hpos & _).
  - exact weighted_beta.
  - exact weighted_aligned.
  - exact weighted_norm.
  - exact weighted_new_avg_nonneg.
  - by exists r, s', v, g.
Defined.

Lemma bc_loss_is_negative_mean_log_likelihood_witness :
  ∃ result self',
    loss explained_variance_spec bc_batch bc_policy = Some (result, self')
    ∧ data result = Sc (- mean_list [-1; -2; -0.5; -3])
    ∧ p_loss self' = Some result
    ∧ total_loss self' = Some result.
Proof.
  apply (bc_loss_is_negative_mean_log_likelihood explained_variance_spec
           bc_policy bc_batch [-1; -2; -0.5; -3]).
  - reflexivity.
  - cbn. lra.
  - reflexivity.
  - done.
Defined.

(** In the two-transition scenario the value estimates require grad and
    the log-probabilities do too: the policy loss requires grad through
    the latter. *)
Lemma policy_loss_gradient_comes_from_the_distribution_witness :
  ∃ result self' p cumulative_rewards,
    loss explained_variance_spec weighted_batch weighted_policy
    = Some (result, self')
    ∧ p_loss self' = Some p
    ∧ advantages weighted_batch = Some cumulative_rewards
    ∧ requires_grad p
      = requires_grad (logp_actions weighted_batch)
        || logstd_requires_grad (config weighted_policy) weighted_batch
    ∧ requires_grad result
      = requires_grad p
        || (requires_grad cumulative_rewards
            || requires_grad (value_function weighted_batch)).
Proof.
  apply (policy_loss_gradient_comes_from_the_distribution
           explained_variance_spec weighted_policy weighted_batch
           [-1; -2] [2; 4] [1; 1] [] 1).
  - exact weighted_beta.
  - exact weighted_aligned.
  - exact weighted_norm.
  - exact weighted_new_avg_nonneg.
Defined.

(** The average of the scenario starts without grad and requires grad
    after one call, because the value estimates do. *)
Lemma moving_average_takes_requires_grad_from_the_update_witness :
  ∃ result self' updated,
    loss explained_variance_spec weighted_batch weighted_policy
    = Some (result, self')
    ∧ _moving_average_sqd_adv_norm self' = Some updated
    ∧ requires_grad updated = true.
Proof.
  destruct weighted_loss_returns as (r & s' & Hl).
  destruct (moving_average_takes_requires_grad_from_the_update
              explained_variance_spec weighted_policy weighted_batch
              [-1; -2] [2; 4] [1; 1] [] (tvec [1] false) (tvec [2; 4] false)
              r s')
    as (updated & Hn & Hg).
  - exact weighted_beta.
  - exact weighted_aligned.
  - reflexivity.
  - by exists 1.
  - reflexivity.
  - exact Hl.
  - by exists r, s', updated.
Defined.

Lemma reported_losses_add_up_witness :
  ∃ result self' stats policy_loss total value_loss,
    loss explained_variance_spec weighted_batch weighted_policy
    = Some (result, self')
    ∧ stats_fn self' = Some (stats, self')
    ∧ stats !! "policy_loss" = Some (Sc policy_loss)
    ∧ stats !! "total_loss" = Some (Sc total)
    ∧ stats !! "vf_loss" = Some (Sc value_loss)
    ∧ total = policy_loss + 1 * value_loss.
Proof.
  destruct weighted_loss_returns as (r & s' & Hl).
  destruct (stats_fn_after_loss explained_variance_spec _ _ _ _ Hl)
    as (stats & Hs & _).
  destruct (reported_losses_add_up explained_variance_spec weighted_policy
              weighted_batch [-1; -2] [2; 4] [1; 1] [] r s' stats)
    as (pl & total & Hp & Ht & _ & H).
  - exact weighted_aligned.
  - intros _. exists 1. exact weighted_norm.
  - exact Hl.
  - exact Hs.
  - destruct (H weighted_beta) as (vl & Hv & _ & Heq).
    by exists r, s', stats, pl, total, vl.
Defined.
